(** * The service convergence engine of compose (compose/service.py)

    A shallow embedding of [compose/service.py]: the short-form parsers,
    the label and naming helpers, the volume migrator, the option
    assembler and the [Service] methods that drive the container runtime.

    Python values are embedded as follows.
    - [str] is [string]; [str.split], [in], [partition] and [rsplit] are
      the functions of module [PyStr].
    - A [dict] with string keys is a [gmap string _]; [dict(pairs)] and
      [dict.update] are [py_dict] and [py_update] (the last pair wins).
    - A dictionary that the code updates in place, the one under the
      [labels] option, is an object of the world's store of dictionaries
      and is referred to by its address: every holder of the address sees
      each update.
    - Exceptions are values of [exn]; a computation that can raise and
      that talks to the runtime is a state-and-error computation [M A]
      over the [world] (the daemon, the service objects, the dictionary
      objects and the record of runtime calls issued so far).
    - An option value of the wrong Python type raises [TypeError] where
      Python raises [TypeError] or [AttributeError].
    - Logging has no effect on any result and is left out.
    - A [while] loop runs on a counter that bounds its iterations;
      [FuelExhausted] marks a counter that ran out.  The counters that
      [scale] passes are large enough: by the lemmas [*_fuel], any larger
      counter gives the same result.  Python's bound on nested calls is
      the [depth] of [create_container]; at depth [0] the call raises
      [RecursionError]. *)

From Stdlib Require Import ZArith Lia List Bool String Ascii.
From stdpp Require Import base option list strings gmap fin_maps pretty sorting.

Open Scope string_scope.
Open Scope list_scope.

(** ** Python strings *)

Module PyStr.

(** [sep in s] for a one-character [sep]. *)
Fixpoint mem (sep : ascii) (s : string) : bool :=
  match s with
  | EmptyString => false
  | String c r => if Ascii.eqb c sep then true else mem sep r
  end.

(** [s.split(sep)] for a one-character [sep]. *)
Fixpoint split (sep : ascii) (s : string) : list string :=
  match s with
  | EmptyString => [EmptyString]
  | String c r =>
      if Ascii.eqb c sep then EmptyString :: split sep r
      else match split sep r with
           | p :: ps => String c p :: ps
           | [] => [String c EmptyString]
           end
  end.

(** [s.partition(sep)]: the text before the first [sep], and the text
    after it when there is one. *)
Fixpoint partition (sep : ascii) (s : string) : string * option string :=
  match s with
  | EmptyString => (EmptyString, None)
  | String c r =>
      if Ascii.eqb c sep then (EmptyString, Some r)
      else let '(a, b) := partition sep r in (String c a, b)
  end.

(** [s.split(sep, 1)]. *)
Definition split1 (sep : ascii) (s : string) : list string :=
  match partition sep s with
  | (a, Some b) => [a; b]
  | (a, None) => [a]
  end.

(** [sep.join(l)]. *)
Fixpoint join (sep : string) (l : list string) : string :=
  match l with
  | [] => EmptyString
  | [x] => x
  | x :: r => x +:+ sep +:+ join sep r
  end.

(** [s.rsplit(sep, 1)]. *)
Definition rsplit1 (sep : ascii) (s : string) : list string :=
  let parts := split sep s in
  match parts with
  | [] | [_] => parts
  | _ => [join (String sep EmptyString) (removelast parts); List.last parts EmptyString]
  end.

(** [s.startswith(p)]. *)
Fixpoint startswith (p s : string) : bool :=
  match p, s with
  | EmptyString, _ => true
  | String a p', String b s' => Ascii.eqb a b && startswith p' s'
  | String _ _, EmptyString => false
  end.

(** [needle in hay] for strings. *)
Fixpoint contains (needle hay : string) : bool :=
  startswith needle hay ||
  match hay with
  | EmptyString => false
  | String _ r => contains needle r
  end.

(** [s[:n]]. *)
Fixpoint take (n : nat) (s : string) : string :=
  match n, s with
  | S k, String c r => String c (take k r)
  | _, _ => EmptyString
  end.

(** [s.strip()]: leading and trailing blanks are dropped. *)
Definition is_space (c : ascii) : bool :=
  let n := nat_of_ascii c in
  (n =? 32)%nat || ((9 <=? n)%nat && (n <=? 13)%nat).

Fixpoint lstrip (s : string) : string :=
  match s with
  | String c r => if is_space c then lstrip r else s
  | EmptyString => EmptyString
  end.

Fixpoint rstrip (s : string) : string :=
  match s with
  | EmptyString => EmptyString
  | String c r =>
      match rstrip r with
      | EmptyString => if is_space c then EmptyString else String c EmptyString
      | r' => String c r'
      end
  end.

Definition strip (s : string) : string := rstrip (lstrip s).

End PyStr.

(** A value that is a [str] or an [int]: port numbers and container
    numbers are written either way. *)
Inductive scalar :=
| SStr (s : string)
| SInt (n : Z).

(** [str(x)]. *)
Definition str (x : scalar) : string :=
  match x with
  | SStr s => s
  | SInt n => pretty n
  end.

(** ** Exceptions *)

Inductive exn :=
| ConfigError
| CannotBeScaledError
| NeedsBuildError
| BuildError
| APIError (status_code : Z) (explanation : option string)
| StreamOutputError
| TypeError
| AttributeError
| ValueError
| IndexError
| KeyError
| RecursionError
| InvalidAction
| FuelExhausted
| OtherError (what : string).

Definition result (A : Type) : Type := exn + A.
Abbreviation Ok := inr (only parsing).
Abbreviation Err := inl (only parsing).

(** ** 4.A Spec parsers *)

Record VolumeSpec := mkVolumeSpec {
  external : option string;
  internal : string;
  mode : string }.

Definition parse_volume_spec (volume_config : string) : result VolumeSpec :=
  let parts := PyStr.split ":" volume_config in
  if (3 <? length parts)%nat then Err ConfigError
  else match parts with
       | [p] => Ok (mkVolumeSpec None p "rw")
       | _ =>
           let parts := if (length parts =? 2)%nat then parts ++ ["rw"] else parts in
           match parts with
           | [external; internal; mode] =>
               if String.eqb mode "rw" || String.eqb mode "ro"
               then Ok (mkVolumeSpec (Some external) internal mode)
               else Err ConfigError
           | _ => Err ValueError
           end
       end.

(** The host side of a port: absent, a port, or an address with a port
    that may be absent. *)
Inductive host_binding :=
| HostNone
| HostPort (external_port : string)
| HostIpPort (external_ip : string) (external_port : option string).

Definition split_port (port : scalar) : result (string * host_binding) :=
  let parts := PyStr.split ":" (str port) in
  if negb ((1 <=? length parts)%nat && (length parts <=? 3)%nat) then Err ConfigError
  else match parts with
       | [internal_port] => Ok (internal_port, HostNone)
       | [external_port; internal_port] => Ok (internal_port, HostPort external_port)
       | [external_ip; external_port; internal_port] =>
           Ok (internal_port,
               HostIpPort external_ip
                 (if String.eqb external_port "" then None else Some external_port))
       | _ => Err ValueError
       end.

(** [int(s)] on a string: blanks around, an optional sign, decimal digits. *)
Definition digit (c : ascii) : option Z :=
  let n := nat_of_ascii c in
  if (48 <=? n)%nat && (n <=? 57)%nat then Some (Z.of_nat (n - 48)) else None.

Fixpoint digits (acc : Z) (s : string) : option Z :=
  match s with
  | EmptyString => Some acc
  | String c r =>
      match digit c with
      | Some d => digits (10 * acc + d)%Z r
      | None => None
      end
  end.

Definition int (s : string) : result Z :=
  let unsigned (t : string) : result Z :=
    match t with
    | EmptyString => Err ValueError
    | _ => match digits 0 t with Some n => Ok n | None => Err ValueError end
    end in
  match PyStr.strip s with
  | String "-" r => match unsigned r with inr n => Ok (- n)%Z | inl e => Err e end
  | String "+" r => unsigned r
  | t => unsigned t
  end.

Definition parse_restart_spec (restart_config : option string)
  : result (option (string * Z)) :=
  match restart_config with
  | None | Some EmptyString => Ok None
  | Some restart_config =>
      let parts := PyStr.split ":" restart_config in
      if (2 <? length parts)%nat then Err ConfigError
      else match parts with
           | [name; max_retry_count] =>
               match int max_retry_count with
               | inr n => Ok (Some (name, n))
               | inl e => Err e
               end
           | [name] => Ok (Some (name, 0%Z))
           | _ => Err ValueError
           end
  end.

Definition parse_repository_tag (s : string) : string * string :=
  if negb (PyStr.mem ":" s) then (s, "")
  else match PyStr.rsplit1 ":" s with
       | [repo; tag] => if PyStr.mem "/" tag then (s, "") else (repo, tag)
       | _ => (s, "")
       end.

(** ** Python dictionaries *)

(** [d.update(pairs)]: pairs are written in order, so the last one wins. *)
Definition py_update_pairs `{Countable K} {V} (d : gmap K V) (pairs : list (K * V))
  : gmap K V :=
  fold_left (fun m kv => <[kv.1 := kv.2]> m) pairs d.

(** [dict(pairs)]. *)
Definition py_dict `{Countable K} {V} (pairs : list (K * V)) : gmap K V :=
  py_update_pairs ∅ pairs.

(** [d.update(e)] for a dictionary [e]: the entries of [e] win. *)
Definition py_update `{Countable K} {V} (d e : gmap K V) : gmap K V := e ∪ d.

(** The value of a volume binding: [{'bind': internal, 'ro': flag}]. *)
Record binding := mkBinding { bind : string; ro : bool }.

Definition build_volume_binding (volume_spec : VolumeSpec) : option string * binding :=
  (external volume_spec,
   mkBinding (internal volume_spec) (String.eqb (mode volume_spec) "ro")).

Definition build_port_bindings (ports : list scalar)
  : result (gmap string (list host_binding)) :=
  fold_left
    (fun acc port =>
       match acc with
       | inl e => Err e
       | inr port_bindings =>
           match split_port port with
           | inl e => Err e
           | inr (internal_port, external) =>
               match port_bindings !! internal_port with
               | Some l => Ok (<[internal_port := l ++ [external]]> port_bindings)
               | None => Ok (<[internal_port := [external]]> port_bindings)
               end
           end
       end)
    ports (Ok ∅).

(** ** Option values *)

(** An entry of the normalised [ports] list: a port, or the tuple made
    by splitting it at ["/"]. *)
Inductive port_entry :=
| PortStr (port : string)
| PortTuple (parts : list string).

(** The address of a dictionary object in the store of the world. *)
Definition dref := nat.

(** The values found in a service's option bag and in the create
    options built from it.  [VDict] is a dictionary taken for its
    entries, as the code reads it or builds it anew; [VRef] is a
    dictionary object, which the code updates in place: the value of the
    [labels] option. *)
Inductive value :=
| VNone
| VBool (b : bool)
| VScalar (a : scalar)
| VList (l : list scalar)
| VDict (d : gmap string string)
| VPorts (l : list port_entry)
| VVolumeSet (internals : gset string)
| VBinds (b : gmap (option string) binding)
| VRef (r : dref).

(** Truth value of [v] in a condition ([if v], [v or d], [not v]).
    Whether a dictionary object is empty is read from the store, where
    the code asks ([build_container_labels]). *)
Definition truthy (v : value) : bool :=
  match v with
  | VNone => false
  | VBool b => b
  | VScalar (SStr s) => negb (String.eqb s "")
  | VScalar (SInt n) => negb (n =? 0)%Z
  | VList l => negb (bool_decide (l = []))
  | VDict d => negb (bool_decide (d = ∅))
  | VPorts l => match l with [] => false | _ => true end
  | VVolumeSet i => negb (bool_decide (i = ∅))
  | VBinds b => negb (bool_decide (b = ∅))
  | VRef _ => true
  end.

#[global] Instance scalar_eq_dec : EqDecision scalar.
Proof. solve_decision. Defined.

(** A list option whose items must all be [str]. *)
Definition strings_of (l : list scalar) : result (list string) :=
  fold_right
    (fun a acc =>
       match a, acc with
       | SStr s, inr r => Ok (s :: r)
       | SInt _, inr _ => Err TypeError
       | _, inl e => Err e
       end)
    (Ok []) l.

Definition build_extra_hosts (extra_hosts_config : value) : result (gmap string string) :=
  if negb (truthy extra_hosts_config) then Ok ∅
  else match extra_hosts_config with
       | VList lines =>
           fold_left
             (fun acc extra_hosts_line =>
                match acc with
                | inl e => Err e
                | inr extra_hosts_dict =>
                    match extra_hosts_line with
                    | SInt _ => Err ConfigError
                    | SStr line =>
                        match PyStr.split ":" line with
                        | [host; ip] =>
                            Ok (<[PyStr.strip host := PyStr.strip ip]> extra_hosts_dict)
                        | _ => Err ValueError
                        end
                    end
                end)
             lines (Ok ∅)
       | VDict d => Ok d
       | _ => Err ConfigError
       end.

(** ** Constants of the collaborators *)

(** Modelled from the spec: the label keys of [compose/const.py], which
    is not part of the sources at hand; section 6 of the specification
    lists them. *)
Definition LABEL_CONTAINER_NUMBER : string := "com.docker.compose.container-number".
Definition LABEL_ONE_OFF : string := "com.docker.compose.oneoff".
Definition LABEL_PROJECT : string := "com.docker.compose.project".
Definition LABEL_SERVICE : string := "com.docker.compose.service".
Definition LABEL_VERSION : string := "com.docker.compose.version".
Definition LABEL_CONFIG_HASH : string := "com.docker.compose.config-hash".

Definition DOCKER_START_KEYS : list string :=
  [ "cap_add"; "cap_drop"; "devices"; "dns"; "dns_search"; "env_file";
    "extra_hosts"; "read_only"; "net"; "log_driver"; "pid"; "privileged";
    "restart"; "volumes_from"; "security_opt" ].

(** ** Containers *)

(** Modelled from the spec: the handle of [compose/container.py] (not
    part of the sources at hand) as the snapshot of what the runtime
    reports for the container.  [image_volumes] is the [Volumes] entry of
    [image_config['ContainerConfig']] and [Volumes] the container's own
    map from internal path to host path. *)
Module Container.

Record t := mk {
  id : string;
  name : string;
  name_without_project : string;
  is_running : bool;
  labels : gmap string string;
  Volumes : option (gmap string string);
  image_volumes : option (list string) }.

Definition short_id (c : t) : string := PyStr.take 12 (id c).

(** The container number, parsed from its label. *)
Definition number (c : t) : result Z :=
  match labels c !! LABEL_CONTAINER_NUMBER with
  | None | Some EmptyString => Err ValueError
  | Some n => int n
  end.

Definition set_running (b : bool) (c : t) : t :=
  mk (id c) (name c) (name_without_project c) b (labels c) (Volumes c) (image_volumes c).

Definition set_name (n : string) (c : t) : t :=
  mk (id c) n (name_without_project c) (is_running c) (labels c) (Volumes c)
     (image_volumes c).

Definition set_labels (l : gmap string string) (c : t) : t :=
  mk (id c) (name c) (name_without_project c) (is_running c) l (Volumes c)
     (image_volumes c).

End Container.

(** ** 4.B Identity and labels *)

Definition build_container_name (project service : string) (number : scalar)
    (one_off : bool) : string :=
  let bits := [project; service] in
  let bits := if one_off then bits ++ ["run"] else bits in
  PyStr.join "_" (bits ++ [str number]).

(** ** Computations that can raise *)

#[global] Instance result_ret : MRet result := fun _ a => Ok a.
#[global] Instance result_bind : MBind result := fun _ _ f m =>
  match m with
  | inl e => Err e
  | inr a => f a
  end.

(** [[f(x) for x in l]] where [f] can raise. *)
Fixpoint map_result {A B} (f : A -> result B) (l : list A) : result (list B) :=
  match l with
  | [] => Ok []
  | x :: r => y ← f x; ys ← map_result f r; Ok (y :: ys)
  end.

(** ** 4.E Volume migrator *)

(** Python does not fix the order in which a [set] is iterated: it is a
    parameter, known only to enumerate the distinct members. *)
Class SetOrder := {
  set_iter : list string -> list string;
  set_iter_NoDup : forall l, NoDup (set_iter l);
  set_iter_elem : forall l x, x ∈ set_iter l <-> x ∈ l }.

Section VolumeMigrator.

Context `{SetOrder}.

(** The step of the loop of [get_container_data_volumes] for one
    member of the set: the binding it appends, if any. *)
Definition data_volume (container_volumes : gmap string string) (volume : string)
  : result (option (option string * binding)) :=
  volume ← parse_volume_spec volume;
  match external volume with
  | Some (String _ _) => Ok None
  | _ =>
      match container_volumes !! internal volume with
      | None | Some EmptyString => Ok None
      | Some volume_path =>
          let volume := mkVolumeSpec (Some volume_path) (internal volume) (mode volume) in
          Ok (Some (build_volume_binding volume))
      end
  end.

Definition get_container_data_volumes (container : Container.t)
    (volumes_option : list string) : result (gmap (option string) binding) :=
  let container_volumes := default ∅ (Container.Volumes container) in
  let image_volumes := default [] (Container.image_volumes container) in
  volumes ← map_result (data_volume container_volumes)
              (set_iter (volumes_option ++ image_volumes));
  Ok (py_dict (omap id volumes)).

Definition merge_volume_bindings (volumes_option : list string)
    (previous_container : option Container.t) : result (gmap (option string) binding) :=
  specs ← map_result parse_volume_spec (filter (fun v => PyStr.mem ":" v = true) volumes_option);
  let volume_bindings := py_dict (map build_volume_binding specs) in
  match previous_container with
  | Some previous_container =>
      data_volumes ← get_container_data_volumes previous_container volumes_option;
      Ok (py_update volume_bindings data_volumes)
  | None => Ok volume_bindings
  end.

End VolumeMigrator.

(** ** Services, the runtime and the world *)

(** A service object is referred to by its address in the store of
    service objects, so that two references to one service see the same
    options. *)
Definition sref := nat.

Inductive volume_source :=
| VolumesFromService (s : sref)
| VolumesFromContainer (c : Container.t).

Inductive net_source :=
| NetService (s : sref)
| NetContainer (c : Container.t)
| NetMode (m : string).

Record Service := mkService {
  name : string;
  project : string;
  links : list (sref * option string);
  external_links : list string;
  volumes_from : list volume_source;
  net : option net_source;
  options : gmap string value }.

(** The arguments handed to [docker.utils.create_host_config]. *)
Record HostConfig := mkHostConfig {
  hc_links : list (string * string);
  hc_port_bindings : gmap string (list host_binding);
  hc_binds : value;
  hc_volumes_from : list string;
  hc_privileged : value;
  hc_network_mode : option string;
  hc_devices : value;
  hc_dns : value;
  hc_dns_search : value;
  hc_restart_policy : option (string * Z);
  hc_cap_add : value;
  hc_cap_drop : value;
  hc_log_config : value;
  hc_extra_hosts : gmap string string;
  hc_read_only : value;
  hc_pid_mode : value;
  hc_security_opt : value }.

(** The calls of the runtime HTTP API that the engine issues. *)
Inductive api_call :=
| call_containers (all : bool) (filters : list string)
| call_inspect_image (image_name : string)
| call_build (path tag : string) (nocache : bool) (dockerfile : value)
| call_pull (repo tag : string) (insecure_registry : bool)
| call_create_container (container_options : gmap string value) (host_config : HostConfig)
| call_start (container_id : string)
| call_stop (container_id : string) (timeout : option Z)
| call_remove_container (container_id : string)
| call_rename (container_id new_name : string)
| call_close.

(** An event of a build or pull stream. *)
Definition event := gmap string string.

Record world := mkWorld {
  daemon_containers : list Container.t;
  daemon_images : gmap string string;
  service_objects : gmap sref Service;
  calls : list api_call;
  dict_objects : gmap dref (gmap string string) }.

Definition set_containers (cs : list Container.t) (w : world) : world :=
  mkWorld cs (daemon_images w) (service_objects w) (calls w) (dict_objects w).
Definition set_images (i : gmap string string) (w : world) : world :=
  mkWorld (daemon_containers w) i (service_objects w) (calls w) (dict_objects w).
Definition set_dicts (d : gmap dref (gmap string string)) (w : world) : world :=
  mkWorld (daemon_containers w) (daemon_images w) (service_objects w) (calls w) d.
Definition record_call (c : api_call) (w : world) : world :=
  mkWorld (daemon_containers w) (daemon_images w) (service_objects w) (calls w ++ [c])
    (dict_objects w).

(** What [compose/config.py], [compose/utils.py] and the package
    itself provide: the keys of the create call, the canonical hash, the
    version. *)
Class Constants := {
  DOCKER_CONFIG_KEYS : list string;
  __version__ : string;
  json_hash : gmap string value -> string -> string }.

(** What the runtime decides on its own: whether a call fails and how,
    what a new container looks like beyond what the create call fixes,
    and what a build or a pull streams back and leaves as images. *)
Class Runtime := {
  fault : world -> api_call -> option exn;
  new_container : world -> gmap string value -> HostConfig -> Container.t;
  built : world -> string -> string -> bool -> value -> list event * gmap string string;
  pulled : world -> string -> string -> bool -> list event * gmap string string }.

(** A computation on the world that returns or raises. *)
Definition M (A : Type) : Type := world -> result A * world.

#[global] Instance M_ret : MRet M := fun _ a w => (Ok a, w).
#[global] Instance M_bind : MBind M := fun _ _ f m w =>
  match m w with
  | (inl e, w') => (Err e, w')
  | (inr a, w') => f a w'
  end.

Definition raise {A} (e : exn) : M A := fun w => (Err e, w).
Definition lift {A} (r : result A) : M A := fun w => (r, w).

(** [try: m except Exception as e: handler(e)]. *)
Definition try_except {A} (m : M A) (handler : exn -> M A) : M A := fun w =>
  match m w with
  | (inl e, w') => handler e w'
  | (inr a, w') => (Ok a, w')
  end.

(** [for x in l: body(x)]. *)
Fixpoint for_each {A} (l : list A) (body : A -> M unit) : M unit :=
  match l with
  | [] => mret tt
  | x :: r => _ ← body x; for_each r body
  end.

(** [[f(x) for x in l]]. *)
Fixpoint map_M {A B} (f : A -> M B) (l : list A) : M (list B) :=
  match l with
  | [] => mret []
  | x :: r => y ← f x; ys ← map_M f r; mret (y :: ys)
  end.

(** ** Dictionary objects *)

(** A reference that points to nothing is not a Python value; it is
    reported as [OtherError].  So is a [VDict] where the code updates a
    dictionary in place: it has no address to update. *)
Definition dangling {A} : M A := raise (OtherError "dangling dictionary reference").
Definition unaddressed {A} : M A := raise (OtherError "dictionary without an address").

(** The entries of the dictionary at [r]. *)
Definition read_dict (r : dref) : M (gmap string string) := fun w =>
  match dict_objects w !! r with
  | Some d => (Ok d, w)
  | None => dangling w
  end.

(** [d[key] = v] on the dictionary [d] at [r], seen through every
    reference to it. *)
Definition set_item (r : dref) (key v : string) : M unit := fun w =>
  match dict_objects w !! r with
  | Some d => (Ok tt, set_dicts (<[r := <[key := v]> d]> (dict_objects w)) w)
  | None => dangling w
  end.

(** [{}]: a new dictionary, at an address not in use. *)
Definition new_dict : M dref := fun w =>
  let r := fresh (dom (dict_objects w)) in
  (Ok r, set_dicts (<[r := ∅]> (dict_objects w)) w).

(** An option bag as it is serialised, for a runtime call or for the
    fingerprint: each dictionary object is read for the entries it has
    at that time. *)
Definition bound (store : gmap dref (gmap string string)) (v : value) : bool :=
  match v with
  | VRef r => bool_decide (is_Some (store !! r))
  | _ => true
  end.

Definition resolve (store : gmap dref (gmap string string)) (v : value) : value :=
  match v with
  | VRef r => VDict (default ∅ (store !! r))
  | _ => v
  end.

Definition snapshot (options : gmap string value) : M (gmap string value) := fun w =>
  if bool_decide (map_Forall (fun _ v => bound (dict_objects w) v = true) options)
  then (Ok (resolve (dict_objects w) <$> options), w)
  else dangling w.

(** ** The runtime client *)

Section Engine.

Context `{Constants} `{Runtime} `{SetOrder}.

(** Modelled from the spec: the runtime behind [docker.Client] (section
    6).  A call is recorded, then fails as the runtime decides or takes
    its effect on the containers and images. *)
Definition api {A} (c : api_call) (effect : world -> result A * world) : M A := fun w =>
  let w1 := record_call c w in
  match fault w c with
  | Some e => (Err e, w1)
  | None => effect w1
  end.

Definition label_matches (labels : gmap string string) (selector : string) : bool :=
  match PyStr.split1 "=" selector with
  | [k; v] => bool_decide (labels !! k = Some v)
  | _ => bool_decide (is_Some (labels !! selector))
  end.

Definition listed (all : bool) (filters : list string) (c : Container.t) : bool :=
  (all || Container.is_running c) && forallb (label_matches (Container.labels c)) filters.

Definition has_id (i : string) (c : Container.t) : bool :=
  bool_decide (Container.id c = i).
Definition has_name (n : string) (c : Container.t) : bool :=
  bool_decide (Container.name c = n).

Definition no_such_container {A} (w : world) : result A * world :=
  (Err (APIError 404 (Some "No such container")), w).

(** An update of the container [i], which must exist. *)
Definition on_container (i : string) (f : Container.t -> Container.t) (w : world)
  : result unit * world :=
  if existsb (has_id i) (daemon_containers w)
  then (Ok tt, set_containers
                 (map (fun c => if has_id i c then f c else c) (daemon_containers w)) w)
  else no_such_container w.

Definition client_containers (all : bool) (filters : list string) : M (list Container.t) :=
  api (call_containers all filters)
      (fun w => (Ok (List.filter (listed all filters) (daemon_containers w)), w)).

Definition client_inspect_image (image_name : string) : M string :=
  api (call_inspect_image image_name)
      (fun w => match daemon_images w !! image_name with
                | Some i => (Ok i, w)
                | None => (Err (APIError 404 (Some ("No such image: " +:+ image_name))), w)
                end).

Definition client_build (path tag : string) (nocache : bool) (dockerfile : value)
  : M (list event) :=
  api (call_build path tag nocache dockerfile)
      (fun w => let '(output, images) := built w path tag nocache dockerfile in
                (Ok output, set_images images w)).

Definition client_pull (repo tag : string) (insecure_registry : bool) : M (list event) :=
  api (call_pull repo tag insecure_registry)
      (fun w => let '(output, images) := pulled w repo tag insecure_registry in
                (Ok output, set_images images w)).

(** A new container takes its name and labels from the create call,
    is not running, and clashes with no container in id or name. *)
Definition client_create_container (container_options : gmap string value)
    (host_config : HostConfig) : M Container.t :=
  api (call_create_container container_options host_config)
      (fun w =>
         let c := new_container w container_options host_config in
         let c := match container_options !! "name" with
                  | Some (VScalar (SStr n)) => Container.set_name n c
                  | _ => c
                  end in
         let c := Container.set_labels
                    (match container_options !! "labels" with
                     | Some (VDict d) => d
                     | _ => ∅
                     end) c in
         let c := Container.set_running false c in
         if existsb (has_id (Container.id c)) (daemon_containers w)
            || existsb (has_name (Container.name c)) (daemon_containers w)
         then (Err (APIError 409 (Some "Conflict")), w)
         else (Ok c, set_containers (c :: daemon_containers w) w)).

Definition client_start (i : string) : M unit :=
  api (call_start i) (on_container i (Container.set_running true)).

Definition client_stop (i : string) (timeout : option Z) : M unit :=
  api (call_stop i timeout) (on_container i (Container.set_running false)).

Definition client_remove_container (i : string) : M unit :=
  api (call_remove_container i)
      (fun w => if existsb (has_id i) (daemon_containers w)
                then (Ok tt, set_containers
                               (List.filter (fun c => negb (has_id i c)) (daemon_containers w)) w)
                else no_such_container w).

Definition client_rename (i new_name : string) : M unit :=
  api (call_rename i new_name)
      (fun w => if existsb (has_name new_name) (daemon_containers w)
                then (Err (APIError 409 (Some "Conflict")), w)
                else on_container i (Container.set_name new_name) w).

Definition client_close : M unit := api call_close (fun w => (Ok tt, w)).

(** The methods of a container handle. *)
Definition Container_create (container_options : gmap string value)
    (host_config : HostConfig) : M Container.t :=
  container_options ← snapshot container_options;
  client_create_container container_options host_config.
Definition Container_start (c : Container.t) : M unit := client_start (Container.id c).
Definition Container_stop (c : Container.t) (timeout : option Z) : M unit :=
  client_stop (Container.id c) timeout.
Definition Container_remove (c : Container.t) : M unit :=
  client_remove_container (Container.id c).

(** Modelled from the spec: [stream_output] of
    [compose/progress_stream.py] hands back the events it forwarded and
    raises when the stream reports an error. *)
Definition stream_output (output : list event) : result (list event) :=
  if existsb (fun e : event => bool_decide (is_Some (e !! "error"))) output
  then Err StreamOutputError
  else Ok output.

(** Modelled from the spec: [merge_environment] of [compose/config.py]
    merges the declared environment with the override, which wins. *)
Definition parse_environment (environment : option value) : result (gmap string string) :=
  match environment with
  | None => Ok ∅
  | Some (VDict d) => Ok d
  | Some v => if truthy v then Err TypeError else Ok ∅
  end.

Definition merge_environment (base override : option value) : result (gmap string string) :=
  env ← parse_environment base;
  over ← parse_environment override;
  Ok (py_update env over).

(** ** The service *)

(** Reading the attributes of the service object at [self].  A
    reference that points to nothing is not a Python value; it is
    reported as [OtherError]. *)
Definition get_service (self : sref) : M Service := fun w =>
  match service_objects w !! self with
  | Some s => (Ok s, w)
  | None => (Err (OtherError "dangling service reference"), w)
  end.

Definition labels (s : Service) (one_off : bool) : list string :=
  [ LABEL_PROJECT +:+ "=" +:+ project s;
    LABEL_SERVICE +:+ "=" +:+ name s;
    LABEL_ONE_OFF +:+ "=" +:+ (if one_off then "True" else "False") ].

(** 4.J: the candidates are read from the runtime and only warned
    about. *)
Definition check_for_legacy_containers (project : string) (services : list string)
    (stopped one_off : bool) : M unit :=
  _ ← client_containers stopped [];
  mret tt.

Definition containers (self : sref) (stopped one_off : bool) : M (list Container.t) :=
  s ← get_service self;
  containers ← client_containers stopped (labels s one_off);
  _ ← match containers with
      | [] => check_for_legacy_containers (project s) [name s] stopped one_off
      | _ => mret tt
      end;
  mret containers.

Definition can_be_built (s : Service) : bool :=
  bool_decide (is_Some (options s !! "build")).

Definition full_name (s : Service) : string := project s +:+ "_" +:+ name s.

Definition image_name (s : Service) : result string :=
  if can_be_built s then Ok (full_name s)
  else match options s !! "image" with
       | Some (VScalar (SStr i)) => Ok i
       | Some _ => Err TypeError
       | None => Err KeyError
       end.

Definition can_be_scaled (s : Service) : result bool :=
  match options s !! "ports" with
  | None => Ok true
  | Some (VList ports) => Ok (forallb (fun port => negb (PyStr.mem ":" (str port))) ports)
  | Some _ => Err TypeError
  end.

(** The [Id] of the image, or [None] when the runtime has no such
    image. *)
Definition image (self : sref) : M (option string) :=
  try_except
    (s ← get_service self;
     n ← lift (image_name s);
     i ← client_inspect_image n;
     mret (Some i))
    (fun e =>
       match e with
       | APIError status_code explanation =>
           if (status_code =? 404)%Z
              && match explanation with
                 | Some explanation =>
                     negb (String.eqb explanation "")
                     && PyStr.contains "No such image" explanation
                 | None => false
                 end
           then mret None
           else raise e
       | _ => raise e
       end).

(** [json_hash(self.config_dict())]; [config_dict] subscripts the
    result of [image()]. *)
Definition config_hash (self : sref) : M string :=
  s ← get_service self;
  i ← image self;
  match i with
  | Some image_id =>
      options ← snapshot (options s);
      mret (json_hash options image_id)
  | None => raise TypeError
  end.

Definition _containers_have_diverged (self : sref) (containers : list Container.t)
  : M bool :=
  config_hash ← config_hash self;
  mret (fold_left
          (fun has_diverged c =>
             let container_config_hash := Container.labels c !! LABEL_CONFIG_HASH in
             if bool_decide (container_config_hash ≠ Some config_hash)
             then true
             else has_diverged)
          containers false).

Definition ConvergencePlan : Type := string * list Container.t.

Definition convergence_plan (self : sref) (allow_recreate smart_recreate : bool)
  : M ConvergencePlan :=
  containers ← containers self true false;
  match containers with
  | [] => mret ("create", [])
  | _ =>
      unchanged ← (if smart_recreate
                   then diverged ← _containers_have_diverged self containers;
                        mret (negb diverged)
                   else mret false);
      if unchanged : bool then
        let stopped := List.filter (fun c => negb (Container.is_running c)) containers in
        match stopped with
        | _ :: _ => mret ("start", stopped)
        | [] => mret ("noop", containers)
        end
      else if negb allow_recreate then mret ("start", containers)
      else mret ("recreate", containers)
  end.

Definition get_container_name (s : Service) (number : scalar) (one_off : bool) : string :=
  build_container_name (project s) (name s) number one_off.

Definition _next_container_number (self : sref) (one_off : bool) : M Z :=
  s ← get_service self;
  cs ← client_containers true (labels s one_off);
  numbers ← lift (map_result Container.number cs);
  mret (match numbers with
        | [] => 1
        | n :: r => fold_left Z.max r n + 1
        end)%Z.

(** The first match of [Successfully built ([0-9a-f]+)] in [s]: its
    group. *)
Definition is_hex (c : ascii) : bool :=
  let n := nat_of_ascii c in
  ((48 <=? n) && (n <=? 57) || (97 <=? n) && (n <=? 102))%nat.

Fixpoint take_hex (s : string) : string :=
  match s with
  | String c r => if is_hex c then String c (take_hex r) else EmptyString
  | EmptyString => EmptyString
  end.

Fixpoint drop_string (n : nat) (s : string) : string :=
  match n, s with
  | S k, String _ r => drop_string k r
  | _, _ => s
  end.

Fixpoint search_successfully_built (s : string) : option string :=
  let here :=
    if PyStr.startswith "Successfully built " s
    then match take_hex (drop_string 19 s) with
         | EmptyString => None
         | g => Some g
         end
    else None in
  match here, s with
  | Some g, _ => Some g
  | None, String _ r => search_successfully_built r
  | None, EmptyString => None
  end.

Definition build (self : sref) (no_cache : bool) : M string :=
  s ← get_service self;
  path ← lift (match options s !! "build" with
               | Some (VScalar a) => Ok (str a)
               | Some _ => Err TypeError
               | None => Err KeyError
               end);
  tag ← lift (image_name s);
  build_output ← client_build path tag no_cache (default VNone (options s !! "dockerfile"));
  all_events ← lift (match stream_output build_output with
                     | inl StreamOutputError => Err BuildError
                     | r => r
                     end);
  _ ← client_close;
  let image_id :=
    fold_left
      (fun image_id (event : event) =>
         match event !! "stream" with
         | Some text =>
             match search_successfully_built text with
             | Some g => Some g
             | None => image_id
             end
         | None => image_id
         end)
      all_events None in
  match image_id with
  | None => raise BuildError
  | Some image_id => mret image_id
  end.

Definition pull (self : sref) (insecure_registry : bool) : M unit :=
  s ← get_service self;
  match options s !! "image" with
  | None => mret tt
  | Some v =>
      i ← lift (match v with VScalar (SStr i) => Ok i | _ => Err TypeError end);
      let '(repo, tag) := parse_repository_tag i in
      let tag := if String.eqb tag "" then "latest" else tag in
      output ← client_pull repo tag insecure_registry;
      _ ← lift (stream_output output);
      mret tt
  end.

Definition ensure_image_exists (self : sref) (do_build insecure_registry : bool) : M unit :=
  i ← image self;
  match i with
  | Some _ => mret tt
  | None =>
      s ← get_service self;
      if can_be_built s then
        if do_build then _ ← build self false; mret tt
        else raise NeedsBuildError
      else pull self insecure_registry
  end.

(** [build_container_labels]: [label_options or {}] is the dictionary
    given, unless it is empty, and a new one then; the labels of the
    service, the number and the version are written into it, one after
    the other, and its address is handed back. *)
Definition build_container_labels (label_options : value) (service_labels : list string)
    (number : scalar) : M dref :=
  labels ← match label_options with
           | VRef r => d ← read_dict r; if bool_decide (d = ∅) then new_dict else mret r
           | VDict _ => unaddressed
           | v => if truthy v then raise TypeError else new_dict
           end;
  _ ← for_each service_labels
        (fun label =>
           match PyStr.split1 "=" label with
           | [k; v] => set_item labels k v
           | _ => raise ValueError
           end);
  _ ← set_item labels LABEL_CONTAINER_NUMBER (str number);
  _ ← set_item labels LABEL_VERSION __version__;
  mret labels.

(** ** 4.D Option assembler *)

Definition link_triad (alias : string) (container : Container.t)
  : list (string * string) :=
  [ (Container.name container, alias);
    (Container.name container, Container.name container);
    (Container.name container, Container.name_without_project container) ].

Definition external_link_pair (external_link : string) : result (string * string) :=
  if negb (PyStr.mem ":" external_link) then Ok (external_link, external_link)
  else match PyStr.split ":" external_link with
       | [external_link; link_name] => Ok (external_link, link_name)
       | _ => Err ValueError
       end.

Definition _get_links (self : sref) (link_to_self : bool) : M (list (string * string)) :=
  s ← get_service self;
  linked ← map_M
             (fun '(service, link_name) =>
                cs ← containers service false false;
                target ← get_service service;
                let alias := match link_name with
                             | Some (String a r) => String a r
                             | _ => name target
                             end in
                mret (flat_map (link_triad alias) cs))
             (links s);
  own ← (if link_to_self
         then cs ← containers self false false;
              mret (flat_map (link_triad (name s)) cs)
         else mret []);
  external ← lift (map_result external_link_pair (external_links s));
  mret (concat linked ++ own ++ external).

Section Assembler.

(** [volume_source.create_container()], the call by which
    [_get_volumes_from] re-enters [create_container]. *)
Variable create_container_of : sref -> M Container.t.

Definition _get_volumes_from (self : sref) : M (list string) :=
  s ← get_service self;
  ids ← map_M
          (fun volume_source =>
             match volume_source with
             | VolumesFromService source =>
                 cs ← containers source true false;
                 match cs with
                 | [] => c ← create_container_of source; mret [Container.id c]
                 | _ => mret (map Container.id cs)
                 end
             | VolumesFromContainer c => mret [Container.id c]
             end)
          (volumes_from s);
  mret (concat ids).

Definition _get_net (self : sref) : M (option string) :=
  s ← get_service self;
  match net s with
  | None | Some (NetMode EmptyString) => mret (Some "bridge")
  | Some (NetService other) =>
      cs ← containers other false false;
      match cs with
      | c :: _ => mret (Some ("container:" +:+ Container.id c))
      | [] => mret None
      end
  | Some (NetContainer c) => mret (Some ("container:" +:+ Container.id c))
  | Some (NetMode m) => mret (Some m)
  end.

(** [options.get(key)] for a list option, with [[]] for a missing or
    false value. *)
Definition list_or_empty (v : option value) : result (list scalar) :=
  match v with
  | None => Ok []
  | Some (VList l) => Ok l
  | Some v => if truthy v then Err TypeError else Ok []
  end.

Definition wrap_string (v : value) : value :=
  match v with
  | VScalar (SStr s) => VList [SStr s]
  | _ => v
  end.

Definition _get_container_host_config (self : sref)
    (override_options : gmap string value) (one_off : bool) : M HostConfig :=
  s ← get_service self;
  let options := py_update (options s) override_options in
  let get key := default VNone (options !! key) in
  ports ← lift (list_or_empty (options !! "ports"));
  port_bindings ← lift (build_port_bindings ports);
  let privileged := default (VBool false) (options !! "privileged") in
  let cap_add := get "cap_add" in
  let cap_drop := get "cap_drop" in
  let log_config := default (VScalar (SStr "json-file")) (options !! "log_driver") in
  let pid := get "pid" in
  let security_opt := get "security_opt" in
  let dns := wrap_string (get "dns") in
  let dns_search := wrap_string (get "dns_search") in
  restart ← lift (match get "restart" with
                  | VScalar (SStr r) => parse_restart_spec (Some r)
                  | v => if truthy v then Err TypeError else parse_restart_spec None
                  end);
  extra_hosts ← lift (build_extra_hosts (get "extra_hosts"));
  let read_only := get "read_only" in
  let devices := get "devices" in
  links ← _get_links self one_off;
  volumes_from ← _get_volumes_from self;
  network_mode ← _get_net self;
  mret (mkHostConfig links port_bindings (get "binds") volumes_from privileged
          network_mode devices dns dns_search restart cap_add cap_drop log_config
          extra_hosts read_only pid security_opt).

(** One entry of the [ports] list of the create call. *)
Definition normalize_port (port : scalar) : port_entry :=
  let port := str port in
  let port := if PyStr.mem ":" port
              then List.last (PyStr.split ":" port) EmptyString
              else port in
  if PyStr.mem "/" port then PortTuple (PyStr.split "/" port) else PortStr port.

Definition _get_container_create_options (self : sref)
    (override_options : gmap string value) (number : scalar) (one_off : bool)
    (previous_container : option Container.t)
  : M (gmap string value * HostConfig) :=
  s ← get_service self;
  let add_config_hash := negb one_off && bool_decide (override_options = ∅) in
  let declared :=
    filter (fun kv : string * value => kv.1 ∈ DOCKER_CONFIG_KEYS) (options s) in
  let container_options := py_update declared override_options in
  let container_options :=
    <["name" := VScalar (SStr (get_container_name s number one_off))]> container_options in
  container_options ←
    (if add_config_hash then
       config_hash ← config_hash self;
       container_options ←
         match container_options !! "labels" with
         | None => r ← new_dict; mret (<["labels" := VRef r]> container_options)
         | Some _ => mret container_options
         end;
       match container_options !! "labels" with
       | Some (VRef r) =>
           _ ← set_item r LABEL_CONFIG_HASH config_hash;
           mret container_options
       | Some (VDict _) => unaddressed
       | _ => raise TypeError
       end
     else mret container_options);
  let container_options :=
    match container_options !! "detach" with
    | None => <["detach" := VBool true]> container_options
    | Some _ => container_options
    end in
  container_options ←
    match container_options !! "hostname", container_options !! "domainname" with
    | Some hostname, None =>
        match hostname with
        | VScalar (SStr hostname) =>
            if PyStr.mem "." hostname then
              let '(host, domain) := PyStr.partition "." hostname in
              mret (<["domainname" := VScalar (SStr (default "" domain))]>
                      (<["hostname" := VScalar (SStr host)]> container_options))
            else mret container_options
        | _ => raise TypeError
        end
    | _, _ => mret container_options
    end;
  container_options ←
    (if bool_decide (is_Some (container_options !! "ports"))
        || bool_decide (is_Some (options s !! "expose"))
     then
       ports ← lift (match container_options !! "ports" with
                     | None => Ok []
                     | Some (VList l) => Ok l
                     | Some _ => Err TypeError
                     end);
       expose ← lift (match options s !! "expose" with
                      | None => Ok []
                      | Some (VList l) => Ok l
                      | Some _ => Err TypeError
                      end);
       mret (<["ports" := VPorts (map normalize_port (ports ++ expose))]>
               container_options)
     else mret container_options);
  volumes ← lift (l ← list_or_empty (container_options !! "volumes"); strings_of l);
  binds ← lift (merge_volume_bindings volumes previous_container);
  let override_options := <["binds" := VBinds binds]> override_options in
  container_options ←
    match container_options !! "volumes" with
    | None => mret container_options
    | Some (VList l) =>
        specs ← lift (l ← strings_of l; map_result parse_volume_spec l);
        mret (<["volumes" := VVolumeSet (list_to_set (map internal specs))]>
                container_options)
    | Some _ => raise TypeError
    end;
  environment ← lift (merge_environment (options s !! "environment")
                        (override_options !! "environment"));
  let environment :=
    match previous_container with
    | Some previous_container =>
        <["affinity:container" := "=" +:+ Container.id previous_container]> environment
    | None => environment
    end in
  let container_options := <["environment" := VDict environment]> container_options in
  image_name ← lift (image_name s);
  let container_options := <["image" := VScalar (SStr image_name)]> container_options in
  label_options ← match container_options !! "labels" with
                  | Some label_options => mret label_options
                  | None => r ← new_dict; mret (VRef r)
                  end;
  labels ← build_container_labels label_options (labels s one_off) number;
  let container_options := <["labels" := VRef labels]> container_options in
  let container_options :=
    fold_left (fun o key => delete key o) DOCKER_START_KEYS container_options in
  host_config ← _get_container_host_config self override_options one_off;
  mret (container_options, host_config).

End Assembler.

(** ** 4.H Plan executor and 4.I scaler *)

Fixpoint create_container (depth : nat) (self : sref)
    (one_off insecure_registry do_build : bool)
    (previous_container : option Container.t) (number : option scalar)
    (override_options : gmap string value) : M Container.t :=
  match depth with
  | 0 => raise RecursionError
  | S depth =>
      _ ← ensure_image_exists self do_build insecure_registry;
      number ← match number with
               | Some n =>
                   if truthy (VScalar n) then mret n
                   else n ← _next_container_number self one_off; mret (SInt n)
               | None => n ← _next_container_number self one_off; mret (SInt n)
               end;
      '(container_options, host_config) ←
        _get_container_create_options
          (fun source => create_container depth source false false true None None ∅)
          self override_options number one_off previous_container;
      Container_create container_options host_config
  end.

Definition start_container (container : Container.t) : M Container.t :=
  _ ← Container_start container;
  mret container.

Definition start_container_if_stopped (container : Container.t) : M Container.t :=
  if Container.is_running container then mret container
  else start_container container.

(** The runtime error that [recreate_container] takes for a container
    that has stopped already. *)
Definition no_such_process (e : exn) : bool :=
  match e with
  | APIError status_code explanation =>
      (status_code =? 500)%Z
      && match explanation with
         | Some explanation =>
             negb (String.eqb explanation "")
             && PyStr.contains "no such process" explanation
         | None => false
         end
  | _ => false
  end.

Definition recreate_container (depth : nat) (self : sref) (container : Container.t)
    (insecure_registry : bool) : M Container.t :=
  _ ← try_except (Container_stop container None)
        (fun e => if no_such_process e then mret tt else raise e);
  _ ← client_rename (Container.id container)
        (Container.short_id container +:+ "_" +:+ Container.name container);
  new_container ← create_container depth self false insecure_registry false
                    (Some container)
                    (SStr <$> Container.labels container !! LABEL_CONTAINER_NUMBER) ∅;
  _ ← start_container new_container;
  _ ← Container_remove container;
  mret new_container.

(** The steps of [recreate_container] that follow the [stop]: rename,
    create, start, remove. *)
Definition recreate_after_stop (depth : nat) (self : sref) (container : Container.t)
    (insecure_registry : bool) : M Container.t :=
  _ ← client_rename (Container.id container)
        (Container.short_id container +:+ "_" +:+ Container.name container);
  new_container ← create_container depth self false insecure_registry false
                    (Some container)
                    (SStr <$> Container.labels container !! LABEL_CONTAINER_NUMBER) ∅;
  _ ← start_container new_container;
  _ ← Container_remove container;
  mret new_container.

Definition execute_convergence_plan (depth : nat) (self : sref) (plan : ConvergencePlan)
    (insecure_registry do_build : bool) : M (list Container.t) :=
  let '(action, containers) := plan in
  if String.eqb action "create" then
    container ← create_container depth self false insecure_registry do_build None None ∅;
    _ ← start_container container;
    mret [container]
  else if String.eqb action "recreate" then
    map_M (fun c => recreate_container depth self c insecure_registry) containers
  else if String.eqb action "start" then
    _ ← for_each containers (fun c => _ ← start_container_if_stopped c; mret tt);
    mret containers
  else if String.eqb action "noop" then mret containers
  else raise InvalidAction.

Definition converge (depth : nat) (self : sref)
    (allow_recreate smart_recreate insecure_registry do_build : bool)
  : M (list Container.t) :=
  plan ← convergence_plan self allow_recreate smart_recreate;
  execute_convergence_plan depth self plan insecure_registry do_build.

Definition remove_stopped (self : sref) : M unit :=
  cs ← containers self true false;
  for_each cs (fun c => if negb (Container.is_running c) then Container_remove c
                        else mret tt).

(** [l.sort(key=lambda c: c.number)]: the keys are computed first, in
    order, and the sort is stable. *)
Fixpoint insert_by_key (x : Z * Container.t) (l : list (Z * Container.t))
  : list (Z * Container.t) :=
  match l with
  | [] => [x]
  | y :: r => if (x.1 <=? y.1)%Z then x :: y :: r else y :: insert_by_key x r
  end.

Definition sort_by_number (l : list Container.t) : result (list Container.t) :=
  keys ← map_result Container.number l;
  Ok (map snd (fold_right insert_by_key [] (combine keys l))).

(** [while len(containers) < desired_num:
       containers.append(self.create_container())]. *)
Fixpoint create_enough (fuel depth : nat) (self : sref) (desired_num : Z)
    (containers : list Container.t) : M (list Container.t) :=
  if (Z.of_nat (length containers) <? desired_num)%Z then
    match fuel with
    | 0 => raise FuelExhausted
    | S fuel =>
        c ← create_container depth self false false true None None ∅;
        create_enough fuel depth self desired_num (containers ++ [c])
    end
  else mret containers.

(** [while len(running_containers) > desired_num: ...]; [pop()] on an
    empty list raises [IndexError]. *)
Fixpoint stop_excess (fuel : nat) (desired_num : Z)
    (running_containers stopped_containers : list Container.t)
  : M (list Container.t * list Container.t) :=
  if (desired_num <? Z.of_nat (length running_containers))%Z then
    match fuel with
    | 0 => raise FuelExhausted
    | S fuel =>
        match List.rev running_containers with
        | [] => raise IndexError
        | c :: rest =>
            _ ← Container_stop c (Some 1%Z);
            stop_excess fuel desired_num (List.rev rest) (stopped_containers ++ [c])
        end
    end
  else mret (running_containers, stopped_containers).

(** [while len(running_containers) < desired_num: ...]; [pop(0)] on
    an empty list raises [IndexError]. *)
Fixpoint start_missing (desired_num : Z)
    (running_containers stopped_containers : list Container.t)
  : M (list Container.t * list Container.t) :=
  if (Z.of_nat (length running_containers) <? desired_num)%Z then
    match stopped_containers with
    | [] => raise IndexError
    | c :: stopped_containers =>
        _ ← start_container c;
        start_missing desired_num (running_containers ++ [c]) stopped_containers
    end
  else mret (running_containers, stopped_containers).

Definition scale (depth : nat) (self : sref) (desired_num : Z) : M unit :=
  s ← get_service self;
  scalable ← lift (can_be_scaled s);
  if negb scalable then raise CannotBeScaledError
  else
    containers ← containers self true false;
    containers ← create_enough (Z.to_nat (desired_num - Z.of_nat (length containers)))
                    depth self desired_num containers;
    let running_containers := List.filter Container.is_running containers in
    let stopped_containers :=
      List.filter (fun c => negb (Container.is_running c)) containers in
    running_containers ← lift (sort_by_number running_containers);
    stopped_containers ← lift (sort_by_number stopped_containers);
    '(running_containers, stopped_containers) ←
      stop_excess (S (length running_containers)) desired_num
        running_containers stopped_containers;
    '(running_containers, stopped_containers) ←
      start_missing desired_num running_containers stopped_containers;
    remove_stopped self.

End Engine.

(** ** A small deployment

    One service [web] of project [myapp], run from the image [nginx], on a
    runtime that never fails of its own and names new containers after
    the number of calls it has seen. *)
Module Demo.

Definition order : SetOrder :=
  Build_SetOrder remove_dups NoDup_remove_dups elem_of_remove_dups.

Definition constants : Constants :=
  Build_Constants
    ["image"; "labels"; "ports"; "volumes"; "environment"; "hostname"; "detach"]
    "1.3.0"
    (fun _ image_id => "sha256:" +:+ image_id).

Definition fresh (w : world) : Container.t :=
  Container.mk ("c" +:+ pretty (length (calls w))) "" "" false ∅ None None.

Definition runtime : Runtime :=
  Build_Runtime (fun _ _ => None) (fun w _ _ => fresh w)
    (fun w _ _ _ _ => ([], daemon_images w))
    (fun w _ _ _ => ([], daemon_images w)).

Definition web : Service :=
  mkService "web" "myapp" [] [] [] None {[ "image" := VScalar (SStr "nginx") ]}.

(** A service whose own labels, the dictionary at address [0], claim
    the keys of the engine. *)
Definition tagged : Service :=
  mkService "db" "myapp" [] [] [] None
    (<[ "labels" := VRef 0 ]> {[ "image" := VScalar (SStr "nginx") ]}).

Definition w0 : world :=
  mkWorld [] {[ "nginx" := "0123abcd" ]} {[ 0 := web; 1 := tagged ]} []
    {[ 0 := {[ LABEL_PROJECT := "other"; LABEL_CONTAINER_NUMBER := "99";
               "tier" := "backend" ]} ]}.

(** A service that publishes and exposes ports. *)
Definition proxy : Service :=
  mkService "proxy" "myapp" [] [] [] None
    (<[ "ports" := VList [SStr "8080:80/tcp"; SInt 443] ]>
       (<[ "expose" := VList [SStr "9000/udp"] ]>
          {[ "image" := VScalar (SStr "nginx") ]})).

Definition w_proxy : world :=
  mkWorld [] {[ "nginx" := "0123abcd" ]} {[ 0 := proxy ]} [] ∅.

(** Two services that were given one dictionary of labels, the one at
    address [0]: [data], and [app], which takes its volumes from
    [data]. *)
Definition data : Service :=
  mkService "data" "myapp" [] [] [] None
    (<[ "labels" := VRef 0 ]> {[ "image" := VScalar (SStr "nginx") ]}).

Definition app : Service :=
  mkService "app" "myapp" [] [] [VolumesFromService 0] None
    (<[ "labels" := VRef 0 ]> {[ "image" := VScalar (SStr "nginx") ]}).

Definition w_shared : world :=
  mkWorld [] {[ "nginx" := "0123abcd" ]} {[ 0 := data; 1 := app ]} []
    {[ 0 := {[ "team" := "storage" ]} ]}.

(** A runtime whose [stop] fails: the process is gone already. *)
Definition gone : exn := APIError 500 (Some "Cannot stop container: no such process").
Definition runtime_without_process : Runtime :=
  Build_Runtime
    (fun _ c => match c with call_stop _ _ => Some gone | _ => None end)
    (fun w _ _ => fresh w)
    (fun w _ _ _ _ => ([], daemon_images w))
    (fun w _ _ _ => ([], daemon_images w)).

(** A runtime whose [stop] fails for another reason. *)
Definition busy : exn := APIError 500 (Some "Cannot stop container: device busy").
Definition runtime_busy : Runtime :=
  Build_Runtime
    (fun _ c => match c with call_stop _ _ => Some busy | _ => None end)
    (fun w _ _ => fresh w)
    (fun w _ _ _ _ => ([], daemon_images w))
    (fun w _ _ _ => ([], daemon_images w)).

(** A container to be replaced, with two data volumes, one of them
    declared by its image. *)
Definition old_web : Container.t :=
  Container.mk "0ldc0ffee" "myapp_web_1" "web_1" true ∅
    (Some {[ "/data" := "/var/lib/docker/vfs/dir/aa";
             "/cache" := "/var/lib/docker/vfs/dir/bb" ]})
    (Some ["/cache"]).

(** A container whose two volumes sit on one host path. *)
Definition clash : Container.t :=
  Container.mk "c1a54" "myapp_web_2" "web_2" true ∅
    (Some {[ "/a" := "/h"; "/b" := "/h" ]}) None.

(** No nested creation. *)
Definition no_create : sref -> M Container.t := fun _ => raise RecursionError.

(** The world after a first [converge]: one running container. *)
Definition converged : world :=
  (@converge constants runtime order 5 0 true true false true w0).2.

(** The same with the container stopped. *)
Definition halted : world :=
  set_containers (map (Container.set_running false) (daemon_containers converged))
    converged.

(** A handle whose fingerprint label is out of date, and one without
    the label. *)
Definition stale : Container.t :=
  Container.mk "feed" "myapp_web_7" "web_7" true
    {[ LABEL_CONFIG_HASH := "sha256:0000" ]} None None.
Definition unlabelled : Container.t :=
  Container.mk "f00d" "myapp_web_8" "web_8" true ∅ None None.

End Demo.

(** * Properties *)

(** ** Splitting strings *)

Lemma split_nonempty sep s : PyStr.split sep s <> [].
Proof.
  destruct s as [|c r]; simpl; [discriminate|].
  destruct (Ascii.eqb c sep); [discriminate|].
  destruct (PyStr.split sep r); discriminate.
Qed.

Lemma split_no_sep sep s : PyStr.mem sep s = false -> PyStr.split sep s = [s].
Proof.
  induction s as [|c r IH]; simpl; [reflexivity|].
  destruct (Ascii.eqb c sep); [discriminate|].
  intros Hr. rewrite (IH Hr). reflexivity.
Qed.

Lemma split_app sep a b :
  PyStr.mem sep a = false ->
  PyStr.split sep (a +:+ String sep b) = a :: PyStr.split sep b.
Proof.
  induction a as [|c r IH]; simpl.
  - intros _. rewrite Ascii.eqb_refl. reflexivity.
  - destruct (Ascii.eqb c sep); [discriminate|].
    intros Hr. rewrite (IH Hr). reflexivity.
Qed.

Lemma split_parts_no_sep sep s : Forall (fun p => PyStr.mem sep p = false) (PyStr.split sep s).
Proof.
  induction s as [|c r IH]; simpl.
  - repeat constructor.
  - destruct (Ascii.eqb c sep) eqn:E.
    + constructor; [reflexivity|exact IH].
    + destruct (PyStr.split sep r) as [|p ps]; [repeat constructor; simpl; now rewrite E|].
      inversion IH; subst. constructor; [simpl; now rewrite E|assumption].
Qed.

(** The parts of a string, joined by the separator, give the string
    back: they are its separator-free pieces. *)
Lemma join_split sep s : PyStr.join (String sep EmptyString) (PyStr.split sep s) = s.
Proof.
  induction s as [|c r IH]; simpl; [reflexivity|].
  destruct (Ascii.eqb c sep) eqn:E.
  - apply Ascii.eqb_eq in E. subst c.
    pose proof (split_nonempty sep r) as Hne.
    destruct (PyStr.split sep r) as [|p ps]; [congruence|].
    simpl in *. now rewrite IH.
  - pose proof (split_nonempty sep r) as Hne.
    destruct (PyStr.split sep r) as [|p ps]; [congruence|].
    destruct ps; simpl in *; now rewrite <- IH.
Qed.

Lemma split_join sep ps :
  ps <> [] -> Forall (fun p => PyStr.mem sep p = false) ps ->
  PyStr.split sep (PyStr.join (String sep EmptyString) ps) = ps.
Proof.
  induction ps as [|p ps IH]; [congruence|].
  intros _ Hall. inversion Hall as [|? ? Hp Hps]; subst.
  destruct ps as [|q ps].
  - simpl. now apply split_no_sep.
  - change (PyStr.join (String sep EmptyString) (p :: q :: ps))
      with (p +:+ String sep (PyStr.join (String sep EmptyString) (q :: ps))).
    rewrite split_app by assumption. f_equal. apply IH; [discriminate|assumption].
Qed.

Lemma partition_app sep a b :
  PyStr.mem sep a = false -> PyStr.partition sep (a +:+ String sep b) = (a, Some b).
Proof.
  induction a as [|c r IH]; simpl.
  - intros _. now rewrite Ascii.eqb_refl.
  - destruct (Ascii.eqb c sep); [discriminate|].
    intros Hr. now rewrite (IH Hr).
Qed.

(** ** 4.A Spec parsers *)

(** C7. [parse_volume_spec] on the colon-separated parts of a volume
    string: more than three parts raise [ConfigError]; one part [p] gives
    [(None, p, "rw")]; two parts give [(ext, int, "rw")]; three parts give
    [(ext, int, mode)] when the mode is ["rw"] or ["ro"], and raise
    [ConfigError] for any other mode. *)
Theorem parse_volume_spec_cases (volume_config : string) :
  let parts := PyStr.split ":" volume_config in
  (3 < length parts -> parse_volume_spec volume_config = Err ConfigError) /\
  (forall p, parts = [p] ->
     parse_volume_spec volume_config = Ok (mkVolumeSpec None p "rw")) /\
  (forall ext int, parts = [ext; int] ->
     parse_volume_spec volume_config = Ok (mkVolumeSpec (Some ext) int "rw")) /\
  (forall ext int m, parts = [ext; int; m] -> m = "rw" \/ m = "ro" ->
     parse_volume_spec volume_config = Ok (mkVolumeSpec (Some ext) int m)) /\
  (forall ext int m, parts = [ext; int; m] -> m <> "rw" -> m <> "ro" ->
     parse_volume_spec volume_config = Err ConfigError).
Proof.
  intros parts. unfold parse_volume_spec. fold parts.
  repeat split.
  - intros Hlen. apply Nat.ltb_lt in Hlen. now rewrite Hlen.
  - intros p ->. reflexivity.
  - intros ext int ->. reflexivity.
  - intros ext int m -> [-> | ->]; reflexivity.
  - intros ext int m -> Hrw Hro. simpl.
    apply String.eqb_neq in Hrw, Hro. now rewrite Hrw, Hro.
Qed.

Lemma parse_volume_spec_cases_witness :
  parse_volume_spec "/srv/data:/data:ro" = Ok (mkVolumeSpec (Some "/srv/data") "/data" "ro")
  /\ parse_volume_spec "/srv/data:/data:rx" = Err ConfigError
  /\ parse_volume_spec "a:b:c:d" = Err ConfigError.
Proof.
  split; [|split].
  - apply (proj1 (proj2 (proj2 (proj2 (parse_volume_spec_cases "/srv/data:/data:ro"))))
             "/srv/data" "/data" "ro"); [reflexivity | right; reflexivity].
  - apply (proj2 (proj2 (proj2 (proj2 (parse_volume_spec_cases "/srv/data:/data:rx"))))
             "/srv/data" "/data" "rx"); [reflexivity | discriminate | discriminate].
  - apply (proj1 (parse_volume_spec_cases "a:b:c:d")). simpl. lia.
Defined.

(** ** Reasoning about computations *)

Lemma bind_unfold {A B} (m : M A) (f : A -> M B) (w : world) :
  (m ≫= f) w = match m w with
               | (inl e, w') => (Err e, w')
               | (inr a, w') => f a w'
               end.
Proof. reflexivity. Qed.

Lemma bind_ok {A B} (m : M A) (f : A -> M B) (w w1 : world) (a : A) :
  m w = (Ok a, w1) -> (m ≫= f) w = f a w1.
Proof. intros E. rewrite bind_unfold, E. reflexivity. Qed.

Lemma bind_err {A B} (m : M A) (f : A -> M B) (w w1 : world) (e : exn) :
  m w = (Err e, w1) -> (m ≫= f) w = (Err e, w1).
Proof. intros E. rewrite bind_unfold, E. reflexivity. Qed.

Lemma bind_ok_inv {A B} (m : M A) (f : A -> M B) (w w2 : world) (b : B) :
  (m ≫= f) w = (Ok b, w2) ->
  exists a w1, m w = (Ok a, w1) /\ f a w1 = (Ok b, w2).
Proof.
  rewrite bind_unfold. destruct (m w) as [[e|a] w1]; [discriminate|].
  intros E. eauto.
Qed.

Lemma get_service_ok (self : sref) (s : Service) (w : world) :
  service_objects w !! self = Some s -> get_service self w = (Ok s, w).
Proof. intros E. unfold get_service. now rewrite E. Qed.

Lemma get_service_inv (self : sref) (s : Service) (w w1 : world) :
  get_service self w = (Ok s, w1) -> service_objects w !! self = Some s /\ w1 = w.
Proof.
  unfold get_service. destruct (service_objects w !! self); [|discriminate].
  intros [= -> ->]. auto.
Qed.

(** Inversion of a successful run, one bind at a time. *)
Ltac inv_bind H :=
  let a := fresh "a" in
  let w := fresh "w" in
  let E := fresh "E" in
  apply bind_ok_inv in H; destruct H as (a & w & E & H).

(** ** 4.C Config fingerprint and divergence *)

Lemma diverged_fold (P : Container.t -> bool) (cs : list Container.t) (b0 : bool) :
  fold_left (fun has_diverged c => if P c then true else has_diverged) cs b0 = true
  <-> b0 = true \/ exists c, c ∈ cs /\ P c = true.
Proof.
  revert b0. induction cs as [|c cs IH]; intros b0; simpl.
  - split; [auto|]. intros [?|(c & Hc & _)]; [assumption|]. now apply elem_of_nil in Hc.
  - rewrite IH. split.
    + intros [Hc|(c' & Hin & Hp)].
      * destruct (P c) eqn:E; [|auto]. right. exists c. split; [left|assumption].
      * right. exists c'. split; [now right|assumption].
    + intros [->|(c' & Hin & Hp)].
      * left. now destruct (P c).
      * apply elem_of_cons in Hin. destruct Hin as [->|Hin].
        -- left. now rewrite Hp.
        -- right. eauto.
Qed.

(** C4. [_containers_have_diverged] reports divergence exactly when some
    container's [config_hash] label differs from the service's current
    fingerprint; a container without the label counts as diverged (its
    label reads [None]). *)
Theorem containers_have_diverged_iff `{Constants} `{Runtime}
    (self : sref) (containers : list Container.t) (w w1 : world) (fingerprint : string) :
  config_hash self w = (Ok fingerprint, w1) ->
  exists diverged,
    _containers_have_diverged self containers w = (Ok diverged, w1) /\
    (diverged = true <->
     exists c, c ∈ containers /\ Container.labels c !! LABEL_CONFIG_HASH <> Some fingerprint).
Proof.
  intros Hh. unfold _containers_have_diverged.
  rewrite (bind_ok _ _ _ _ _ Hh). eexists. split; [reflexivity|].
  rewrite (diverged_fold
             (fun c => bool_decide (Container.labels c !! LABEL_CONFIG_HASH <> Some fingerprint))).
  split.
  - intros [?|(c & Hin & Hp)]; [discriminate|].
    exists c. split; [assumption|]. now apply bool_decide_eq_true in Hp.
  - intros (c & Hin & Hp). right. exists c. split; [assumption|].
    now apply bool_decide_eq_true.
Qed.

(** If the fingerprint cannot be computed, neither can the divergence. *)
Lemma containers_have_diverged_err `{Constants} `{Runtime}
    (self : sref) (containers : list Container.t) (w w1 : world) (e : exn) :
  config_hash self w = (Err e, w1) ->
  _containers_have_diverged self containers w = (Err e, w1).
Proof. intros Hh. unfold _containers_have_diverged. now rewrite (bind_err _ _ _ _ _ Hh). Qed.

Lemma containers_have_diverged_iff_witness :
  exists diverged,
    @_containers_have_diverged Demo.constants Demo.runtime 0
      (Demo.unlabelled :: daemon_containers Demo.converged) Demo.converged
    = (Ok diverged, (@config_hash Demo.constants Demo.runtime 0 Demo.converged).2) /\
    (diverged = true <->
     exists c, c ∈ Demo.unlabelled :: daemon_containers Demo.converged
               /\ Container.labels c !! LABEL_CONFIG_HASH <> Some "sha256:0123abcd").
Proof.
  apply (@containers_have_diverged_iff Demo.constants Demo.runtime 0
           (Demo.unlabelled :: daemon_containers Demo.converged) Demo.converged).
  vm_compute. reflexivity.
Defined.

(** ** 4.G Convergence planner *)

(** C1. With [cs] the containers that [containers(stopped=True)] finds
    for the service: the plan is [('create', [])] when [cs] is empty, and
    only then; otherwise, when [smart_recreate] is set and no container
    has diverged, it is [('start', stopped ones)] if some are stopped and
    [('noop', cs)] if none is; otherwise it is [('start', cs)] without
    [allow_recreate] and [('recreate', cs)] with it. *)
Theorem convergence_plan_cases `{Constants} `{Runtime}
    (self : sref) (allow_recreate smart_recreate : bool) (w w1 : world)
    (cs : list Container.t) :
  containers self true false w = (Ok cs, w1) ->
  let stopped := List.filter (fun c => negb (Container.is_running c)) cs in
  (cs = [] ->
   convergence_plan self allow_recreate smart_recreate w = (Ok ("create", []), w1)) /\
  (forall plan w2,
     convergence_plan self allow_recreate smart_recreate w = (Ok plan, w2) ->
     plan.1 = "create" -> cs = []) /\
  (forall w2,
     cs <> [] -> smart_recreate = true ->
     _containers_have_diverged self cs w1 = (Ok false, w2) ->
     convergence_plan self allow_recreate smart_recreate w
     = (Ok (if bool_decide (stopped = []) then ("noop", cs) else ("start", stopped)), w2)) /\
  (forall w2,
     cs <> [] ->
     smart_recreate = false /\ w2 = w1
     \/ smart_recreate = true /\ _containers_have_diverged self cs w1 = (Ok true, w2) ->
     convergence_plan self allow_recreate smart_recreate w
     = (Ok (if allow_recreate then "recreate" else "start", cs), w2)).
Proof.
  intros Hcs stopped. unfold convergence_plan. rewrite (bind_ok _ _ _ _ _ Hcs).
  repeat split.
  - intros ->. reflexivity.
  - intros plan w2. destruct cs as [|c cs]; [reflexivity|].
    intros Hrun Hplan. exfalso.
    inv_bind Hrun. destruct a.
    + destruct (List.filter _ (c :: cs)); injection Hrun as <- _; discriminate.
    + destruct allow_recreate; injection Hrun as <- _; discriminate.
  - intros w2 Hne -> Hdiv. destruct cs as [|c cs]; [congruence|].
    rewrite bind_unfold, bind_unfold, Hdiv. subst stopped.
    generalize (List.filter (fun c => negb (Container.is_running c)) (c :: cs)) as st.
    intros [|s st]; reflexivity.
  - intros w2 Hne Hcase. destruct cs as [|c cs]; [congruence|].
    destruct Hcase as [[-> ->]|[-> Hdiv]].
    + destruct allow_recreate; reflexivity.
    + rewrite bind_unfold, bind_unfold, Hdiv. destruct allow_recreate; reflexivity.
Qed.

Lemma convergence_plan_cases_witness :
  @convergence_plan Demo.constants Demo.runtime 0 true true Demo.w0
  = (Ok ("create", []), (@containers Demo.runtime 0 true false Demo.w0).2)
  /\ (exists w2,
        @convergence_plan Demo.constants Demo.runtime 0 true true Demo.halted
        = (Ok ("start", daemon_containers Demo.halted), w2))
  /\ (@convergence_plan Demo.constants Demo.runtime 0 true false Demo.converged).1
     = Ok ("recreate", daemon_containers Demo.converged).
Proof.
  split; [|split].
  - apply (proj1 (@convergence_plan_cases Demo.constants Demo.runtime 0 true true
                    Demo.w0 _ [] eq_refl)). reflexivity.
  - eexists.
    refine (proj1 (proj2 (proj2
              (@convergence_plan_cases Demo.constants Demo.runtime 0 true true
                 Demo.halted _ (daemon_containers Demo.halted) _))) _ _ eq_refl _).
    + vm_compute. reflexivity.
    + vm_compute. discriminate.
    + vm_compute. reflexivity.
  - erewrite (proj2 (proj2 (proj2
                (@convergence_plan_cases Demo.constants Demo.runtime 0 true false
                   Demo.converged _ (daemon_containers Demo.converged) _)))).
    + reflexivity.
    + vm_compute. discriminate.
    + left. split; reflexivity.
    Unshelve. vm_compute. reflexivity.
Defined.

(** ** 4.F Image provisioner *)

(** C9. For a service without an ['image'] option, [pull] returns at
    once: no error, no runtime call, and the world is as it was. *)
Theorem pull_without_image `{Runtime}
    (self : sref) (s : Service) (insecure_registry : bool) (w : world) :
  service_objects w !! self = Some s ->
  options s !! "image" = None ->
  pull self insecure_registry w = (Ok tt, w).
Proof.
  intros Hs Himg. unfold pull.
  rewrite (bind_ok _ _ _ _ _ (get_service_ok _ _ _ Hs)), Himg. reflexivity.
Qed.

Lemma pull_without_image_witness :
  let built_only := mkService "app" "myapp" [] [] [] None {[ "build" := VScalar (SStr "./app") ]} in
  let w := mkWorld [] ∅ {[ 3 := built_only ]} [] ∅ in
  @pull Demo.runtime 3 false w = (Ok tt, w).
Proof.
  intros built_only w.
  apply (@pull_without_image Demo.runtime 3 built_only false w); reflexivity.
Defined.

(** ** What a computation leaves in place *)

(** [preserves R m]: however [m] ends, the world it leaves is related by
    [R] to the one it started in. *)
Definition preserves {A} (R : world -> world -> Prop) (m : M A) : Prop :=
  forall w r w', m w = (r, w') -> R w w'.

Section Preserves.

Context (R : world -> world -> Prop) `{!Reflexive R} `{!Transitive R}.

Lemma preserves_ret {A} (a : A) : preserves R (mret a).
Proof. intros w r w' [= _ <-]. reflexivity. Qed.

Lemma preserves_raise {A} (e : exn) : preserves R (@raise A e).
Proof. intros w r w' [= _ <-]. reflexivity. Qed.

Lemma preserves_lift {A} (x : result A) : preserves R (lift x).
Proof. intros w r w' [= _ <-]. reflexivity. Qed.

Lemma preserves_bind {A B} (m : M A) (f : A -> M B) :
  preserves R m -> (forall a, preserves R (f a)) -> preserves R (m ≫= f).
Proof.
  intros Hm Hf w r w'. rewrite bind_unfold.
  destruct (m w) as [[e|a] w1] eqn:E.
  - intros [= _ <-]. eapply Hm, E.
  - intros Hr. etransitivity; [eapply Hm, E|eapply Hf, Hr].
Qed.

Lemma preserves_try {A} (m : M A) (handler : exn -> M A) :
  preserves R m -> (forall e, preserves R (handler e)) -> preserves R (try_except m handler).
Proof.
  intros Hm Hh w r w'. unfold try_except.
  destruct (m w) as [[e|a] w1] eqn:E.
  - intros Hr. etransitivity; [eapply Hm, E|eapply Hh, Hr].
  - intros [= _ <-]. eapply Hm, E.
Qed.

Lemma preserves_map_M {A B} (f : A -> M B) (l : list A) :
  (forall a, preserves R (f a)) -> preserves R (map_M f l).
Proof.
  intros Hf. induction l as [|x l IH]; simpl.
  - apply preserves_ret.
  - apply preserves_bind; [apply Hf|]. intros y.
    apply preserves_bind; [apply IH|]. intros ys. apply preserves_ret.
Qed.

Lemma preserves_for_each {A} (body : A -> M unit) (l : list A) :
  (forall a, preserves R (body a)) -> preserves R (for_each l body).
Proof.
  intros Hf. induction l as [|x l IH]; simpl.
  - apply preserves_ret.
  - apply preserves_bind; [apply Hf|]. intros _. apply IH.
Qed.

Lemma preserves_api `{Runtime} {A} (c : api_call) (effect : world -> result A * world) :
  (forall w r w', effect (record_call c w) = (r, w') -> R w w') ->
  (forall w, R w (record_call c w)) ->
  preserves R (api c effect).
Proof.
  intros He Hc w r w'. unfold api. destruct (fault w c).
  - intros [= _ <-]. apply Hc.
  - apply He.
Qed.

End Preserves.

(** One step of a proof that a computation preserves a relation: the
    rule for its outermost construct. *)
Ltac preserves_step :=
  lazy beta;
  match goal with
  | |- preserves _ (mret _) => apply preserves_ret; try typeclasses eauto
  | |- preserves _ (raise _) => apply preserves_raise; try typeclasses eauto
  | |- preserves _ dangling => apply preserves_raise; try typeclasses eauto
  | |- preserves _ unaddressed => apply preserves_raise; try typeclasses eauto
  | |- preserves _ (lift _) => apply preserves_lift; try typeclasses eauto
  | |- preserves _ (_ ≫= _) =>
      apply preserves_bind; [try typeclasses eauto | | intros ?]
  | |- preserves _ (try_except _ _) =>
      apply preserves_try; [try typeclasses eauto | | intros ?]
  | |- preserves _ (map_M _ _) =>
      apply preserves_map_M; [try typeclasses eauto .. | intros ?]
  | |- preserves _ (for_each _ _) =>
      apply preserves_for_each; [try typeclasses eauto .. | intros ?]
  | |- preserves _ (match ?x with _ => _ end) => destruct x
  | |- preserves _ (let '(_, _) := ?p in _) => destruct p
  end.

Create HintDb preserves discriminated.

Ltac solve_preserves := repeat (first [preserves_step | solve [eauto with preserves]]).

(** The relation kept by everything short of starting, stopping,
    renaming and removing containers: the service objects stay as they
    are, the runtime only gains containers, these are not running, and
    container ids stay distinct. *)
Definition stable_services (w w' : world) : Prop :=
  service_objects w' = service_objects w.

Definition ids (w : world) : list string := map Container.id (daemon_containers w).

Definition grows (w w' : world) : Prop :=
  stable_services w w' /\
  exists added,
    daemon_containers w' = added ++ daemon_containers w /\
    Forall (fun c => Container.is_running c = false) added /\
    (NoDup (ids w) -> NoDup (ids w')).

#[global] Instance stable_services_refl : Reflexive stable_services.
Proof. intros w. reflexivity. Qed.

#[global] Instance stable_services_trans : Transitive stable_services.
Proof. intros w1 w2 w3 H12 H23. unfold stable_services in *. congruence. Qed.

#[global] Instance grows_refl : Reflexive grows.
Proof.
  intros w. split; [reflexivity|]. exists []. repeat split; auto.
Qed.

#[global] Instance grows_trans : Transitive grows.
Proof.
  intros w1 w2 w3 [Hs12 (a12 & E12 & F12 & N12)] [Hs23 (a23 & E23 & F23 & N23)].
  split; [etransitivity; eassumption|].
  exists (a23 ++ a12). repeat split.
  - rewrite E23, E12. now rewrite app_assoc.
  - apply Forall_app. auto.
  - auto.
Qed.

Lemma grows_record_call (c : api_call) (w : world) : grows w (record_call c w).
Proof. split; [reflexivity|]. exists []. repeat split; auto. Qed.

Lemma grows_set_images (i : gmap string string) (w : world) : grows w (set_images i w).
Proof. split; [reflexivity|]. exists []. repeat split; auto. Qed.

Lemma grows_set_dicts (d : gmap dref (gmap string string)) (w : world) :
  grows w (set_dicts d w).
Proof. split; [reflexivity|]. exists []. repeat split; auto. Qed.

Section Grows.

Context `{Constants} `{Runtime} `{SetOrder}.

Lemma get_service_grows self : preserves grows (get_service self).
Proof.
  intros w r w'. unfold get_service.
  destruct (service_objects w !! self); intros [= _ <-]; reflexivity.
Qed.

Lemma read_dict_grows r : preserves grows (read_dict r).
Proof.
  intros w x w'. unfold read_dict.
  destruct (dict_objects w !! r); intros [= _ <-]; reflexivity.
Qed.

Lemma set_item_grows r key v : preserves grows (set_item r key v).
Proof.
  intros w x w'. unfold set_item.
  destruct (dict_objects w !! r); intros [= _ <-]; [apply grows_set_dicts|reflexivity].
Qed.

Lemma new_dict_grows : preserves grows new_dict.
Proof. intros w x w' [= _ <-]. apply grows_set_dicts. Qed.

Lemma snapshot_grows options : preserves grows (snapshot options).
Proof.
  intros w x w'. unfold snapshot.
  destruct (bool_decide _); intros [= _ <-]; reflexivity.
Qed.

Lemma client_containers_grows all filters : preserves grows (client_containers all filters).
Proof.
  apply preserves_api; [|apply grows_record_call].
  intros w r w' [= _ <-]. apply grows_record_call.
Qed.

Lemma client_inspect_image_grows n : preserves grows (client_inspect_image n).
Proof.
  apply preserves_api; [|apply grows_record_call].
  intros w r w'. destruct (daemon_images _ !! n); intros [= _ <-]; apply grows_record_call.
Qed.

Lemma client_build_grows path tag nocache dockerfile :
  preserves grows (client_build path tag nocache dockerfile).
Proof.
  apply preserves_api; [|apply grows_record_call].
  intros w r w'. destruct (built _ _ _ _ _) as [output images]. intros [= _ <-].
  etransitivity; [apply grows_record_call|apply grows_set_images].
Qed.

Lemma client_pull_grows repo tag insecure : preserves grows (client_pull repo tag insecure).
Proof.
  apply preserves_api; [|apply grows_record_call].
  intros w r w'. destruct (pulled _ _ _ _) as [output images]. intros [= _ <-].
  etransitivity; [apply grows_record_call|apply grows_set_images].
Qed.

Lemma client_close_grows : preserves grows client_close.
Proof.
  apply preserves_api; [|apply grows_record_call].
  intros w r w' [= _ <-]. apply grows_record_call.
Qed.

Lemma existsb_has_id_false (i : string) (cs : list Container.t) :
  existsb (has_id i) cs = false -> i ∉ map Container.id cs.
Proof.
  induction cs as [|c cs IH]; simpl; [intros _; apply not_elem_of_nil|].
  intros Hor. apply orb_false_iff in Hor as [Hc Hcs].
  apply not_elem_of_cons. split; [|auto].
  unfold has_id in Hc. apply bool_decide_eq_false in Hc. congruence.
Qed.

Lemma client_create_container_grows container_options host_config :
  preserves grows (client_create_container container_options host_config).
Proof.
  apply preserves_api; [|apply grows_record_call].
  intros w r w'. cbv beta zeta.
  set (c := Container.set_running false _).
  destruct (existsb (has_id (Container.id c)) _ || _) eqn:E; intros [= _ <-];
    [apply grows_record_call|].
  apply orb_false_iff in E as [Eid _].
  split; [reflexivity|].
  exists [c]. repeat split.
  - repeat constructor.
  - intros Hnd. unfold ids. cbn. apply NoDup_cons. split; [|exact Hnd].
    now apply existsb_has_id_false.
Qed.

End Grows.

#[global] Hint Resolve get_service_grows read_dict_grows set_item_grows new_dict_grows
  snapshot_grows client_containers_grows
  client_inspect_image_grows client_build_grows client_pull_grows client_close_grows
  client_create_container_grows : preserves.

Section GrowsService.

Context `{Constants} `{Runtime} `{SetOrder}.

Lemma containers_grows self stopped one_off : preserves grows (containers self stopped one_off).
Proof. unfold containers, check_for_legacy_containers. solve_preserves. Qed.

Lemma image_grows self : preserves grows (image self).
Proof. unfold image. solve_preserves. Qed.

Hint Resolve containers_grows image_grows : preserves.

Lemma config_hash_grows self : preserves grows (config_hash self).
Proof. unfold config_hash. solve_preserves. Qed.

Lemma build_grows self no_cache : preserves grows (build self no_cache).
Proof. unfold build. solve_preserves. Qed.

Lemma pull_grows self insecure : preserves grows (pull self insecure).
Proof. unfold pull. solve_preserves. Qed.

Hint Resolve config_hash_grows build_grows pull_grows : preserves.

Lemma ensure_image_exists_grows self do_build insecure :
  preserves grows (ensure_image_exists self do_build insecure).
Proof. unfold ensure_image_exists. solve_preserves. Qed.

Lemma next_container_number_grows self one_off :
  preserves grows (_next_container_number self one_off).
Proof. unfold _next_container_number. solve_preserves. Qed.

Lemma get_links_grows self link_to_self : preserves grows (_get_links self link_to_self).
Proof. unfold _get_links. solve_preserves. Qed.

Lemma build_container_labels_grows label_options service_labels number :
  preserves grows (build_container_labels label_options service_labels number).
Proof. unfold build_container_labels. solve_preserves. Qed.

Hint Resolve ensure_image_exists_grows next_container_number_grows get_links_grows
  build_container_labels_grows : preserves.

Section WithCreate.

Variable create_container_of : sref -> M Container.t.
Hypothesis create_grows : forall source, preserves grows (create_container_of source).

Lemma get_volumes_from_grows self :
  preserves grows (_get_volumes_from create_container_of self).
Proof. unfold _get_volumes_from. solve_preserves. Qed.

Lemma get_net_grows self : preserves grows (_get_net self).
Proof. unfold _get_net. solve_preserves. Qed.

Hint Resolve get_volumes_from_grows get_net_grows : preserves.

Lemma get_container_host_config_grows self override_options one_off :
  preserves grows
    (_get_container_host_config create_container_of self override_options one_off).
Proof. unfold _get_container_host_config. solve_preserves. Qed.

Hint Resolve get_container_host_config_grows : preserves.

Lemma get_container_create_options_grows self override_options number one_off previous :
  preserves grows
    (_get_container_create_options create_container_of self override_options number
       one_off previous).
Proof. unfold _get_container_create_options. solve_preserves. Qed.

End WithCreate.

Lemma create_container_grows depth :
  forall self one_off insecure do_build previous number override_options,
    preserves grows
      (create_container depth self one_off insecure do_build previous number
         override_options).
Proof.
  induction depth as [|depth IH]; intros; simpl.
  - apply preserves_raise. typeclasses eauto.
  - pose proof (get_container_create_options_grows
                  (fun source => create_container depth source false false true None None ∅)
                  (fun source => IH source false false true None None ∅)) as Hopt.
    unfold Container_create. solve_preserves.
Qed.

End GrowsService.

#[global] Hint Resolve containers_grows image_grows config_hash_grows build_grows pull_grows
  ensure_image_exists_grows next_container_number_grows get_links_grows get_net_grows
  create_container_grows : preserves.

(** ** Dictionary objects *)

Lemma lift_ok {A} (x : result A) (a : A) (w w' : world) :
  lift x w = (Ok a, w') -> x = Ok a /\ w' = w.
Proof. unfold lift. intros [= -> ->]. auto. Qed.

Lemma read_dict_ok (r : dref) (w w' : world) (d : gmap string string) :
  read_dict r w = (Ok d, w') -> dict_objects w !! r = Some d /\ w' = w.
Proof.
  unfold read_dict. destruct (dict_objects w !! r); [|discriminate].
  intros [= -> ->]. auto.
Qed.

Lemma set_item_ok (r : dref) (key v : string) (w w' : world) :
  set_item r key v w = (Ok tt, w') ->
  exists d, dict_objects w !! r = Some d /\
            w' = set_dicts (<[r := <[key := v]> d]> (dict_objects w)) w.
Proof.
  unfold set_item. destruct (dict_objects w !! r) as [d|]; [|discriminate].
  intros [= <-]. eauto.
Qed.

Lemma new_dict_ok (w w' : world) (r : dref) :
  new_dict w = (Ok r, w') ->
  dict_objects w !! r = None /\ w' = set_dicts (<[r := ∅]> (dict_objects w)) w.
Proof.
  intros [= <- <-]. split; [|reflexivity].
  apply not_elem_of_dom. apply is_fresh.
Qed.

Lemma snapshot_ok (options options' : gmap string value) (w w' : world) :
  snapshot options w = (Ok options', w') ->
  options' = resolve (dict_objects w) <$> options /\ w' = w.
Proof.
  unfold snapshot. destruct (bool_decide _); [|discriminate].
  intros [= <- <-]. auto.
Qed.

(** ** What only reads the runtime *)

(** [keeps]: no container and no service object has changed.  [reads]:
    nor has any dictionary. *)
Definition keeps (w w' : world) : Prop :=
  daemon_containers w' = daemon_containers w /\ service_objects w' = service_objects w.

Definition reads (w w' : world) : Prop :=
  keeps w w' /\ dict_objects w' = dict_objects w.

#[global] Instance keeps_refl : Reflexive keeps.
Proof. intros w. split; reflexivity. Qed.

#[global] Instance keeps_trans : Transitive keeps.
Proof. intros w1 w2 w3 [Hc12 Hs12] [Hc23 Hs23]. split; congruence. Qed.

#[global] Instance reads_refl : Reflexive reads.
Proof. intros w. split; reflexivity. Qed.

#[global] Instance reads_trans : Transitive reads.
Proof. intros w1 w2 w3 [H12 Hd12] [H23 Hd23]. split; [etransitivity; eassumption|congruence]. Qed.

Lemma reads_keeps (w w' : world) : reads w w' -> keeps w w'.
Proof. now intros [? _]. Qed.

Section Reads.

Context `{Constants} `{Runtime}.

Lemma get_service_reads self : preserves reads (get_service self).
Proof.
  intros w r w'. unfold get_service.
  destruct (service_objects w !! self); intros [= _ <-]; reflexivity.
Qed.

Lemma read_dict_reads r : preserves reads (read_dict r).
Proof.
  intros w x w'. unfold read_dict.
  destruct (dict_objects w !! r); intros [= _ <-]; reflexivity.
Qed.

Lemma snapshot_reads options : preserves reads (snapshot options).
Proof.
  intros w x w'. unfold snapshot.
  destruct (bool_decide _); intros [= _ <-]; reflexivity.
Qed.

Lemma client_containers_reads all filters : preserves reads (client_containers all filters).
Proof.
  apply preserves_api; [|intros w; repeat split; reflexivity].
  intros w r w' [= _ <-]. repeat split; reflexivity.
Qed.

Lemma client_inspect_image_reads n : preserves reads (client_inspect_image n).
Proof.
  apply preserves_api; [|intros w; repeat split; reflexivity].
  intros w r w'. destruct (daemon_images _ !! n); intros [= _ <-]; repeat split; reflexivity.
Qed.

Lemma client_build_reads path tag nocache dockerfile :
  preserves reads (client_build path tag nocache dockerfile).
Proof.
  apply preserves_api; [|intros w; repeat split; reflexivity].
  intros w r w'. destruct (built _ _ _ _ _) as [output images]. intros [= _ <-].
  repeat split; reflexivity.
Qed.

Lemma client_pull_reads repo tag insecure : preserves reads (client_pull repo tag insecure).
Proof.
  apply preserves_api; [|intros w; repeat split; reflexivity].
  intros w r w'. destruct (pulled _ _ _ _) as [output images]. intros [= _ <-].
  repeat split; reflexivity.
Qed.

Lemma client_close_reads : preserves reads client_close.
Proof.
  apply preserves_api; [|intros w; repeat split; reflexivity].
  intros w r w' [= _ <-]. repeat split; reflexivity.
Qed.

Hint Resolve get_service_reads read_dict_reads snapshot_reads client_containers_reads
  client_inspect_image_reads client_build_reads client_pull_reads client_close_reads
  : preserves.

Lemma containers_reads self stopped one_off :
  preserves reads (containers self stopped one_off).
Proof. unfold containers, check_for_legacy_containers. solve_preserves. Qed.

Lemma image_reads self : preserves reads (image self).
Proof. unfold image. solve_preserves. Qed.

Hint Resolve containers_reads image_reads : preserves.

Lemma config_hash_reads self : preserves reads (config_hash self).
Proof. unfold config_hash. solve_preserves. Qed.

Lemma build_reads self no_cache : preserves reads (build self no_cache).
Proof. unfold build. solve_preserves. Qed.

Lemma pull_reads self insecure : preserves reads (pull self insecure).
Proof. unfold pull. solve_preserves. Qed.

Hint Resolve config_hash_reads build_reads pull_reads : preserves.

Lemma ensure_image_exists_reads self do_build insecure :
  preserves reads (ensure_image_exists self do_build insecure).
Proof. unfold ensure_image_exists. solve_preserves. Qed.

Lemma next_container_number_reads self one_off :
  preserves reads (_next_container_number self one_off).
Proof. unfold _next_container_number. solve_preserves. Qed.

Lemma get_links_reads self link_to_self : preserves reads (_get_links self link_to_self).
Proof. unfold _get_links. solve_preserves. Qed.

Lemma convergence_plan_reads self allow_recreate smart_recreate :
  preserves reads (convergence_plan self allow_recreate smart_recreate).
Proof. unfold convergence_plan, _containers_have_diverged. solve_preserves. Qed.

(** Writing into a dictionary changes no container and no service. *)
Lemma set_item_keeps r key v : preserves keeps (set_item r key v).
Proof.
  intros w x w'. unfold set_item.
  destruct (dict_objects w !! r); intros [= _ <-]; split; reflexivity.
Qed.

Lemma new_dict_keeps : preserves keeps new_dict.
Proof. intros w x w' [= _ <-]. split; reflexivity. Qed.

Lemma preserves_reads_keeps {A} (m : M A) : preserves reads m -> preserves keeps m.
Proof. intros Hm w r w' Hrun. exact (reads_keeps _ _ (Hm _ _ _ Hrun)). Qed.

Lemma read_dict_keeps r : preserves keeps (read_dict r).
Proof. apply preserves_reads_keeps, read_dict_reads. Qed.

Lemma config_hash_keeps self : preserves keeps (config_hash self).
Proof. apply preserves_reads_keeps, config_hash_reads. Qed.

Lemma get_service_keeps self : preserves keeps (get_service self).
Proof. apply preserves_reads_keeps, get_service_reads. Qed.

Hint Resolve set_item_keeps new_dict_keeps read_dict_keeps config_hash_keeps
  get_service_keeps : preserves.

Lemma build_container_labels_keeps label_options service_labels number :
  preserves keeps (build_container_labels label_options service_labels number).
Proof. unfold build_container_labels. solve_preserves. Qed.

End Reads.

#[global] Hint Resolve get_service_reads read_dict_reads snapshot_reads
  client_containers_reads client_inspect_image_reads client_build_reads client_pull_reads
  client_close_reads containers_reads image_reads config_hash_reads build_reads pull_reads
  ensure_image_exists_reads next_container_number_reads get_links_reads
  set_item_keeps new_dict_keeps read_dict_keeps config_hash_keeps get_service_keeps
  build_container_labels_keeps : preserves.

(** ** 4.D Option assembler *)

Lemma lookup_fold_delete {V} (keys : list string) (m : gmap string V) (k : string) :
  k ∉ keys -> fold_left (fun o key => delete key o) keys m !! k = m !! k.
Proof.
  revert m. induction keys as [|key keys IH]; intros m Hk; simpl; [reflexivity|].
  apply not_elem_of_cons in Hk as [Hne Hk].
  rewrite IH by assumption. now apply lookup_delete_ne.
Qed.

(** The labels that mark a container as the one numbered [number] of
    the service [s]. *)
Definition labelled (version : string) (s : Service) (one_off : bool) (number : scalar)
    (d : gmap string string) : Prop :=
  d !! LABEL_PROJECT = Some (project s) /\
  d !! LABEL_SERVICE = Some (name s) /\
  d !! LABEL_ONE_OFF = Some (if one_off then "True" else "False") /\
  d !! LABEL_CONTAINER_NUMBER = Some (str number) /\
  d !! LABEL_VERSION = Some version.

Section CreateOptions.

Context `{Constants} `{Runtime} `{SetOrder}.

(** When [build_container_labels] returns, the dictionary it hands back
    holds the labels of the service, the number and the version, whatever
    it held for these keys. *)
Lemma build_container_labels_ok (label_options : value) (s : Service) (one_off : bool)
    (number : scalar) (w w' : world) (r : dref) :
  build_container_labels label_options (labels s one_off) number w = (Ok r, w') ->
  exists d, dict_objects w' !! r = Some d /\ labelled __version__ s one_off number d.
Proof.
  unfold build_container_labels, labels. intros Hrun.
  inv_bind Hrun. clear E. cbn [for_each] in Hrun.
  unfold PyStr.split1 in Hrun.
  change (LABEL_PROJECT +:+ "=" +:+ project s)
    with (LABEL_PROJECT +:+ String "=" (project s)) in Hrun.
  change (LABEL_SERVICE +:+ "=" +:+ name s)
    with (LABEL_SERVICE +:+ String "=" (name s)) in Hrun.
  change (LABEL_ONE_OFF +:+ "=" +:+ (if one_off then "True" else "False"))
    with (LABEL_ONE_OFF +:+ String "=" (if one_off then "True" else "False")) in Hrun.
  rewrite !partition_app in Hrun by reflexivity.
  apply bind_ok_inv in Hrun as ([] & w4 & Hloop & Hrun).
  apply bind_ok_inv in Hloop as ([] & w1 & E1 & Hloop).
  apply bind_ok_inv in Hloop as ([] & w2 & E2 & Hloop).
  apply bind_ok_inv in Hloop as ([] & w3 & E3 & Hloop).
  injection Hloop as <-.
  apply bind_ok_inv in Hrun as ([] & w5 & E4 & Hrun).
  apply bind_ok_inv in Hrun as ([] & w6 & E5 & Hrun).
  injection Hrun as <- <-.
  apply set_item_ok in E1 as (d0 & Hd0 & ->).
  apply set_item_ok in E2 as (d1 & Hd1 & ->).
  apply set_item_ok in E3 as (d2 & Hd2 & ->).
  apply set_item_ok in E4 as (d3 & Hd3 & ->).
  apply set_item_ok in E5 as (d4 & Hd4 & ->).
  cbn [dict_objects set_dicts] in *.
  rewrite lookup_insert_eq in Hd1, Hd2, Hd3, Hd4.
  injection Hd1 as <-. injection Hd2 as <-. injection Hd3 as <-. injection Hd4 as <-.
  eexists. split; [apply lookup_insert_eq|].
  repeat split; repeat (rewrite lookup_insert_ne by discriminate); apply lookup_insert_eq.
Qed.

Variable create_container_of : sref -> M Container.t.

(** A successful run of [_get_container_create_options], from its end:
    the start-only keys removed last, the labels, the image and the
    environment written before them, the [ports] entry made of the
    declared ports and the exposed ones, and the host configuration, which
    is computed after the labels were written into the dictionary at
    [target]. *)
Lemma create_options_run self override_options number one_off previous w w' s opts hc :
  service_objects w !! self = Some s ->
  _get_container_create_options create_container_of self override_options number
    one_off previous w = (Ok (opts, hc), w') ->
  let declared :=
    py_update (filter (fun kv : string * value => kv.1 ∈ DOCKER_CONFIG_KEYS) (options s))
      override_options in
  exists target final environment image rest binds w1,
    opts = fold_left (fun o key => delete key o) DOCKER_START_KEYS
             (<["labels" := VRef target]>
                (<["image" := image]>
                   (<["environment" :=
                        VDict match previous with
                              | Some previous_container =>
                                  <["affinity:container" :=
                                      "=" +:+ Container.id previous_container]> environment
                              | None => environment
                              end]> rest))) /\
    (forall ports expose,
       declared !! "ports" = Some (VList ports) \/ declared !! "ports" = None /\ ports = [] ->
       options s !! "expose" = Some (VList expose)
       \/ options s !! "expose" = None /\ expose = [] ->
       is_Some (declared !! "ports") \/ is_Some (options s !! "expose") ->
       rest !! "ports" = Some (VPorts (map normalize_port (ports ++ expose)))) /\
    keeps w w1 /\
    dict_objects w1 !! target = Some final /\
    labelled __version__ s one_off number final /\
    _get_container_host_config create_container_of self
      (<["binds" := VBinds binds]> override_options) one_off w1 = (Ok hc, w').
Proof.
  intros Hs Hrun declared. unfold _get_container_create_options in Hrun.
  inv_bind Hrun. apply get_service_inv in E as [E ->].
  rewrite Hs in E. injection E as <-.
  fold declared in Hrun.
  set (co0 := <["name" := VScalar (SStr (get_container_name s number one_off))]> declared)
    in Hrun.
  assert (co0 !! "ports" = declared !! "ports") as Hp0
    by (unfold co0; now rewrite lookup_insert_ne by discriminate).
  clearbody co0.
  (* the fingerprint *)
  inv_bind Hrun. rename a into co1, w0 into wa.
  assert (keeps w wa /\ co1 !! "ports" = declared !! "ports") as [Hka Hp1].
  { split.
    - match type of E with
      | ?m w = _ => assert (preserves keeps m) as Hp by solve_preserves
      end.
      exact (Hp _ _ _ E).
    - rewrite <- Hp0. clear -E.
      destruct (negb one_off && _); [|now injection E as <- _].
      inv_bind E. inv_bind E.
      assert (a0 !! "ports" = co0 !! "ports") as <-.
      { destruct (co0 !! "labels"); [now injection E1 as <- _|].
        inv_bind E1. injection E1 as <- _. now rewrite lookup_insert_ne by discriminate. }
      destruct (a0 !! "labels") as [[]|]; try discriminate.
      inv_bind E. now injection E as <- _. }
  clear E Hp0. clearbody declared.
  set (cod := match co1 !! "detach" with
              | Some _ => co1
              | None => <["detach" := VBool true]> co1
              end) in Hrun.
  assert (cod !! "ports" = declared !! "ports") as Hpd.
  { rewrite <- Hp1. unfold cod. destruct (co1 !! "detach"); [reflexivity|].
    now rewrite lookup_insert_ne by discriminate. }
  clearbody cod. clear Hp1.
  (* hostname and domainname *)
  inv_bind Hrun. rename a into co2.
  assert (co2 !! "ports" = declared !! "ports" /\ w0 = wa) as [Hp2 ->].
  { rewrite <- Hpd. clear -E.
    repeat match type of E with
           | context [match ?x with _ => _ end] => destruct x eqn:?
           | context [if ?b then _ else _] => destruct b eqn:?
           end; try discriminate;
      injection E as <- <-; rewrite ?lookup_insert_ne by discriminate; auto. }
  clear E Hpd.
  (* ports *)
  inv_bind Hrun. rename a into co3.
  assert (w0 = wa /\
          forall ports expose,
            declared !! "ports" = Some (VList ports)
            \/ declared !! "ports" = None /\ ports = [] ->
            options s !! "expose" = Some (VList expose)
            \/ options s !! "expose" = None /\ expose = [] ->
            is_Some (declared !! "ports") \/ is_Some (options s !! "expose") ->
            co3 !! "ports" = Some (VPorts (map normalize_port (ports ++ expose))))
    as [-> Hp3].
  { rewrite <- Hp2. clear -E.
    destruct (bool_decide (is_Some (co2 !! "ports"))
              || bool_decide (is_Some (options s !! "expose"))) eqn:Eb.
    - inv_bind E. apply lift_ok in E0 as [Hports ->].
      inv_bind E. apply lift_ok in E0 as [Hexpose ->].
      injection E as <- <-. split; [reflexivity|].
      intros ports expose Hps Hex _. rewrite lookup_insert_eq.
      destruct Hps as [Hps|[Hps ->]]; rewrite Hps in Hports; injection Hports as <-;
        destruct Hex as [Hex|[Hex ->]]; rewrite Hex in Hexpose; injection Hexpose as <-;
        reflexivity.
    - injection E as <- <-. split; [reflexivity|].
      intros ports expose _ _ Hsome. exfalso.
      apply orb_false_iff in Eb as [Eb1 Eb2].
      apply bool_decide_eq_false in Eb1, Eb2. tauto. }
  clear E Hp2.
  (* volumes *)
  inv_bind Hrun. apply lift_ok in E as [_ ->].
  inv_bind Hrun. apply lift_ok in E as [_ ->]. rename a0 into binds.
  inv_bind Hrun. rename a0 into co4.
  assert (co4 !! "ports" = co3 !! "ports" /\ w0 = wa) as [Hp4 ->].
  { clear -E.
    destruct (co3 !! "volumes") as [[]|]; try discriminate.
    - inv_bind E. apply lift_ok in E0 as [_ ->].
      injection E as <- <-. rewrite lookup_insert_ne by discriminate. auto.
    - injection E as <- <-. auto. }
  clear E.
  (* environment, image and labels *)
  inv_bind Hrun. apply lift_ok in E as [_ ->]. rename a0 into environment.
  inv_bind Hrun. apply lift_ok in E as [_ ->]. rename a0 into image.
  inv_bind Hrun. rename a0 into label_options.
  assert (keeps wa w0) as Hk0.
  { clear -E. match type of E with
              | ?m wa = _ => assert (preserves keeps m) as Hp by solve_preserves
              end.
    exact (Hp _ _ _ E). }
  clear E.
  inv_bind Hrun. rename a0 into target.
  pose proof (build_container_labels_keeps _ _ _ _ _ _ E) as Hk1.
  apply build_container_labels_ok in E as (final & Hfinal & Hlabelled).
  inv_bind Hrun. injection Hrun as <- <- <-.
  exists target, final, environment, (VScalar (SStr image)), co4, binds, w1.
  split; [reflexivity|]. split; [|split; [|auto]].
  - intros ports expose Hps Hex Hsome. rewrite Hp4. now apply Hp3.
  - etransitivity; [exact Hka|]. etransitivity; eassumption.
Qed.

(** C6, as the code has it.  With a previous container, the
    environment of the create options maps ['affinity:container'] to the
    id of that container behind an equals sign, ["=" + id], so that the
    entry reads [affinity:container==<id>] once rendered as
    [key=value]. *)
Theorem create_options_affinity self override_options number one_off previous w w' s
    opts hc :
  service_objects w !! self = Some s ->
  _get_container_create_options create_container_of self override_options number
    one_off (Some previous) w = (Ok (opts, hc), w') ->
  exists environment,
    opts !! "environment" = Some (VDict environment) /\
    environment !! "affinity:container" = Some ("=" +:+ Container.id previous).
Proof.
  intros Hs Hrun.
  destruct (create_options_run _ _ _ _ _ _ _ _ _ _ Hs Hrun)
    as (target & final & env & image & rest & binds & w1 & -> & _).
  eexists. split.
  - rewrite lookup_fold_delete
      by (unfold DOCKER_START_KEYS; rewrite !elem_of_cons, elem_of_nil; intuition discriminate).
    rewrite !lookup_insert_ne by discriminate. apply lookup_insert_eq.
  - apply lookup_insert_eq.
Qed.

(** C5, as the code has it.  [split_port] on the colon-separated parts
    of a port: one part gives [(container, none)], two give
    [(container, host)], three give [(container, (ip, host-or-none))], any
    other count raises [ConfigError]; the container part is handed back as
    it stands, with any ["/proto"] left in it.  The split at ["/"] is made
    by [_get_container_create_options]: the [ports] entry that it returns
    lists, for the declared ports followed by the exposed ones, the last
    colon-separated part of each, as a string when it has no ["/"] and
    split at ["/"] when it has. *)
Theorem split_port_cases (port : scalar) :
  let parts := PyStr.split ":" (str port) in
  (forall container, parts = [container] ->
     split_port port = Ok (container, HostNone)) /\
  (forall host container, parts = [host; container] ->
     split_port port = Ok (container, HostPort host)) /\
  (forall ip host container, parts = [ip; host; container] ->
     split_port port
     = Ok (container, HostIpPort ip (if String.eqb host "" then None else Some host))) /\
  (3 < length parts -> split_port port = Err ConfigError) /\
  (forall last_part, List.last parts "" = last_part ->
     normalize_port port
     = if PyStr.mem "/" last_part then PortTuple (PyStr.split "/" last_part)
       else PortStr last_part) /\
  (forall self override_options number one_off previous w w' s opts hc ports expose,
     let declared :=
       py_update
         (filter (fun kv : string * value => kv.1 ∈ DOCKER_CONFIG_KEYS) (options s))
         override_options in
     service_objects w !! self = Some s ->
     _get_container_create_options create_container_of self override_options number
       one_off previous w = (Ok (opts, hc), w') ->
     declared !! "ports" = Some (VList ports) \/ declared !! "ports" = None /\ ports = [] ->
     options s !! "expose" = Some (VList expose)
     \/ options s !! "expose" = None /\ expose = [] ->
     port ∈ ports ++ expose ->
     opts !! "ports" = Some (VPorts (map normalize_port (ports ++ expose))) /\
     normalize_port port ∈ map normalize_port (ports ++ expose)).
Proof.
  intros parts. unfold split_port. fold parts.
  split; [|split; [|split; [|split; [|split]]]].
  - intros c ->. reflexivity.
  - intros h c ->. reflexivity.
  - intros i h c ->. reflexivity.
  - intros Hlen.
    assert ((length parts <=? 3)%nat = false) as -> by (apply Nat.leb_gt; lia).
    now rewrite andb_false_r.
  - intros last_part <-. unfold normalize_port.
    destruct (PyStr.mem ":" (str port)) eqn:E; [reflexivity|].
    unfold parts. rewrite (split_no_sep _ _ E). reflexivity.
  - intros self override_options number one_off previous w w' s opts hc ports expose
      Hs Hrun Hports Hexpose Hin.
    split; [|now apply list_elem_of_In, in_map, list_elem_of_In].
    destruct (create_options_run _ _ _ _ _ _ _ _ _ _ Hs Hrun)
      as (target & final & env & image & rest & binds & w1 & -> & Hrest & _).
    rewrite lookup_fold_delete
      by (unfold DOCKER_START_KEYS; rewrite !elem_of_cons, elem_of_nil; intuition discriminate).
    rewrite !lookup_insert_ne by discriminate.
    apply Hrest; [assumption..|].
    apply elem_of_app in Hin as [Hin|Hin].
    + left. destruct Hports as [->|[_ ->]]; [eauto|]. now apply elem_of_nil in Hin.
    + right. destruct Hexpose as [->|[_ ->]]; [eauto|]. now apply elem_of_nil in Hin.
Qed.

End CreateOptions.

Lemma split_port_cases_witness :
  split_port (SStr "127.0.0.1::80/tcp") = Ok ("80/tcp", HostIpPort "127.0.0.1" None)
  /\ split_port (SStr "1:2:3:4") = Err ConfigError
  /\ normalize_port (SStr "8080:80/tcp") = PortTuple ["80"; "tcp"]
  /\ exists opts hc w',
       @_get_container_create_options Demo.constants Demo.runtime Demo.order Demo.no_create
         0 ∅ (SInt 1) false None Demo.w_proxy = (Ok (opts, hc), w') /\
       opts !! "ports"
       = Some (VPorts [PortTuple ["80"; "tcp"]; PortStr "443"; PortTuple ["9000"; "udp"]]).
Proof.
  split; [|split; [|split]].
  - apply (proj1 (proj2 (proj2 (@split_port_cases Demo.constants Demo.runtime Demo.order
                                  Demo.no_create (SStr "127.0.0.1::80/tcp"))))
             "127.0.0.1" "" "80/tcp"). reflexivity.
  - apply (proj1 (proj2 (proj2 (proj2 (@split_port_cases Demo.constants Demo.runtime
                                         Demo.order Demo.no_create (SStr "1:2:3:4")))))).
    simpl. lia.
  - apply (proj1 (proj2 (proj2 (proj2 (proj2
             (@split_port_cases Demo.constants Demo.runtime Demo.order Demo.no_create
                (SStr "8080:80/tcp")))))) "80/tcp").
    reflexivity.
  - destruct (@_get_container_create_options Demo.constants Demo.runtime Demo.order
                Demo.no_create 0 ∅ (SInt 1) false None Demo.w_proxy)
      as [[e|[opts hc]] w'] eqn:E.
    + exfalso. vm_compute in E. discriminate.
    + exists opts, hc, w'. split; [reflexivity|].
      apply (proj2 (proj2 (proj2 (proj2 (proj2
               (@split_port_cases Demo.constants Demo.runtime Demo.order Demo.no_create
                  (SStr "8080:80/tcp"))))))
               0 ∅ (SInt 1) false None Demo.w_proxy w' Demo.proxy opts hc
               [SStr "8080:80/tcp"; SInt 443] [SStr "9000/udp"]).
      * reflexivity.
      * exact E.
      * left. vm_compute. reflexivity.
      * left. reflexivity.
      * left.
Defined.

(** C5 as stated fails: for a port whose last part contains ["/"],
    [split_port] returns the container port as one string, not as a
    [(port, proto)] tuple. *)
Lemma split_port_keeps_proto :
  split_port (SStr "8080:80/tcp") = Ok ("80/tcp", HostPort "8080")
  /\ PyStr.mem "/" "80/tcp" = true.
Proof. split; reflexivity. Qed.

Lemma create_options_affinity_witness :
  exists opts hc w' environment,
    @_get_container_create_options Demo.constants Demo.runtime Demo.order Demo.no_create
      0 ∅ (SStr "7") false (Some Demo.stale) Demo.w0 = (Ok (opts, hc), w') /\
    opts !! "environment" = Some (VDict environment) /\
    environment !! "affinity:container" = Some "=feed".
Proof.
  destruct (@_get_container_create_options Demo.constants Demo.runtime Demo.order
              Demo.no_create 0 ∅ (SStr "7") false (Some Demo.stale) Demo.w0)
    as [[e|[opts hc]] w'] eqn:E.
  - exfalso. vm_compute in E. discriminate.
  - destruct (@create_options_affinity Demo.constants Demo.runtime Demo.order Demo.no_create
                0 ∅ (SStr "7") false Demo.stale Demo.w0 w' Demo.web opts hc eq_refl E)
      as (environment & He).
    exists opts, hc, w', environment. split; [reflexivity|exact He].
Defined.

(** C6 as stated fails: the value under ['affinity:container'] is not
    the id of the previous container (here ["feed"]) but ["=feed"]. *)
Lemma affinity_value_is_not_the_id :
  exists opts hc w' environment,
    @_get_container_create_options Demo.constants Demo.runtime Demo.order Demo.no_create
      0 ∅ (SStr "7") false (Some Demo.stale) Demo.w0 = (Ok (opts, hc), w') /\
    opts !! "environment" = Some (VDict environment) /\
    environment !! "affinity:container" = Some "=feed" /\
    environment !! "affinity:container" <> Some (Container.id Demo.stale).
Proof.
  destruct (@_get_container_create_options Demo.constants Demo.runtime Demo.order
              Demo.no_create 0 ∅ (SStr "7") false (Some Demo.stale) Demo.w0)
    as [[e|[opts hc]] w'] eqn:E.
  - exfalso. vm_compute in E. discriminate.
  - destruct (@create_options_run Demo.constants Demo.runtime Demo.order Demo.no_create
                0 ∅ (SStr "7") false (Some Demo.stale) Demo.w0 w' Demo.web opts hc eq_refl E)
      as (target & final & env & image & rest & binds & w1 & Hopts & _).
    exists opts, hc, w'. clear E.
    exists (<["affinity:container" := "=" +:+ Container.id Demo.stale]> env).
    split; [reflexivity|]. split; [|split].
    + rewrite Hopts. rewrite lookup_fold_delete
        by (unfold DOCKER_START_KEYS; rewrite !elem_of_cons, elem_of_nil; intuition discriminate).
      rewrite !lookup_insert_ne by discriminate. apply lookup_insert_eq.
    + apply lookup_insert_eq.
    + rewrite lookup_insert_eq. discriminate.
Qed.

(** ** The labels of the create options *)

(** The containers that the label selectors [L] pick, running or not. *)
Definition matches (L : list string) (c : Container.t) : bool :=
  forallb (label_matches (Container.labels c)) L.

(** The service at [source] has a container in the runtime. *)
Definition has_containers (w : world) (source : sref) : bool :=
  match service_objects w !! source with
  | Some t => existsb (matches (labels t false)) (daemon_containers w)
  | None => false
  end.

(** Every service that [s] takes volumes from has a container, so that
    [_get_volumes_from] creates none. *)
Definition volumes_at_hand (w : world) (s : Service) : bool :=
  forallb (fun volume_source =>
             match volume_source with
             | VolumesFromService source => has_containers w source
             | VolumesFromContainer _ => true
             end)
    (volumes_from s).

Lemma forallb_agree {A} (f g : A -> bool) (l : list A) :
  (forall x, f x = g x) -> forallb f l = forallb g l.
Proof. intros Hfg. induction l as [|x l IH]; simpl; [reflexivity|]. now rewrite Hfg, IH. Qed.

Lemma has_containers_keeps (w w' : world) (source : sref) :
  keeps w w' -> has_containers w' source = has_containers w source.
Proof. intros [Hc Hs]. unfold has_containers. now rewrite Hc, Hs. Qed.

Lemma volumes_at_hand_keeps (w w' : world) (s : Service) :
  keeps w w' -> volumes_at_hand w' s = volumes_at_hand w s.
Proof.
  intros Hk. unfold volumes_at_hand. apply forallb_agree. intros [source|c]; [|reflexivity].
  now apply has_containers_keeps.
Qed.

Lemma has_containers_grows (w w' : world) (source : sref) :
  grows w w' -> has_containers w source = true -> has_containers w' source = true.
Proof.
  intros [Hst (added & Hadd & _)]. unfold has_containers. rewrite Hst.
  destruct (service_objects w !! source) as [t|]; [|discriminate].
  rewrite Hadd, existsb_app. intros ->. apply orb_true_r.
Qed.

Lemma volumes_at_hand_grows (w w' : world) (s : Service) :
  grows w w' -> volumes_at_hand w s = true -> volumes_at_hand w' s = true.
Proof.
  intros Hg. unfold volumes_at_hand. rewrite !forallb_forall.
  intros Hall [source|c] Hin; [|reflexivity].
  apply (has_containers_grows _ _ _ Hg). exact (Hall _ Hin).
Qed.

Lemma api_ok `{Runtime} {A} (c : api_call) (effect : world -> result A * world)
    (w w' : world) (a : A) :
  api c effect w = (Ok a, w') -> effect (record_call c w) = (Ok a, w').
Proof. unfold api. destruct (fault w c); [discriminate|auto]. Qed.

Lemma client_containers_ok `{Runtime} all L (w w' : world) cs :
  client_containers all L w = (Ok cs, w') ->
  cs = List.filter (listed all L) (daemon_containers w) /\
  daemon_containers w' = daemon_containers w /\
  service_objects w' = service_objects w.
Proof. intros Hrun. apply api_ok in Hrun. injection Hrun as <- <-. auto. Qed.

Lemma containers_ok `{Runtime} self stopped one_off (w w' : world) cs s :
  containers self stopped one_off w = (Ok cs, w') ->
  service_objects w !! self = Some s ->
  cs = List.filter (listed stopped (labels s one_off)) (daemon_containers w) /\
  daemon_containers w' = daemon_containers w /\
  service_objects w' = service_objects w.
Proof.
  intros Hrun Hs. unfold containers in Hrun.
  inv_bind Hrun. apply get_service_inv in E as [E ->].
  rewrite Hs in E. injection E as <-.
  inv_bind Hrun. apply client_containers_ok in E as (-> & Hc & Hsv).
  inv_bind Hrun. injection Hrun as <- <-.
  destruct (List.filter _ _) eqn:Ef.
  - unfold check_for_legacy_containers in E. inv_bind E. injection E as _ <-.
    apply client_containers_ok in E0 as (_ & Hc' & Hsv').
    repeat split; congruence.
  - injection E as _ <-. auto.
Qed.

Section AtHand.

Context `{Constants} `{Runtime} `{SetOrder}.
Variable create_container_of : sref -> M Container.t.

(** With a container at hand for every volume source,
    [_get_volumes_from] only reads. *)
Lemma get_volumes_from_reads self (w w' : world) (s : Service) r :
  service_objects w !! self = Some s ->
  volumes_at_hand w s = true ->
  _get_volumes_from create_container_of self w = (r, w') ->
  reads w w'.
Proof.
  intros Hs Hv. unfold _get_volumes_from.
  rewrite (bind_ok _ _ _ _ _ (get_service_ok _ _ _ Hs)).
  unfold volumes_at_hand in Hv. revert Hv. generalize (volumes_from s) as l.
  intros l Hl Hrun.
  match type of Hrun with
  | (map_M ?f l ≫= ?k) w = _ =>
      assert (forall l w r w', forallb
                (fun volume_source =>
                   match volume_source with
                   | VolumesFromService source => has_containers w source
                   | VolumesFromContainer _ => true
                   end) l = true ->
              map_M f l w = (r, w') -> reads w w') as Hloop
  end.
  { clear. induction l as [|v l IH]; intros w r w' Hl; cbn [map_M].
    - intros [= _ <-]. reflexivity.
    - cbn [forallb] in Hl. apply andb_true_iff in Hl as [Hv Hl].
      rewrite bind_unfold.
      match goal with
      | |- match ?m w with _ => _ end = _ -> _ =>
          assert (forall r1 w1, m w = (r1, w1) -> reads w w1) as Hhead
      end.
      { destruct v as [source|c]; [|intros r1 w1 [= _ <-]; reflexivity].
        intros r1 w1. rewrite bind_unfold.
        destruct (containers source true false w) as [[e|cs] w2] eqn:Ec.
        - intros [= _ <-]. exact (containers_reads _ _ _ _ _ _ Ec).
        - pose proof (containers_reads _ _ _ _ _ _ Ec) as Hr.
          unfold has_containers in Hv.
          destruct (service_objects w !! source) as [t|] eqn:Et; [|discriminate].
          destruct (containers_ok _ _ _ _ _ _ _ Ec Et) as (-> & _ & _).
          apply existsb_exists in Hv as (c & Hc & Hm).
          destruct (List.filter _ _) as [|c0 rest] eqn:Ef.
          + exfalso. assert (In c []) as []. rewrite <- Ef. apply filter_In.
            split; [assumption|]. exact Hm.
          + intros [= _ <-]. exact Hr. }
      destruct (_ w) as [[e|ids] w1] eqn:Eh.
      + intros [= _ <-]. exact (Hhead _ _ eq_refl).
      + pose proof (Hhead _ _ eq_refl) as Hr1.
        rewrite bind_unfold.
        destruct (map_M _ l w1) as [[e|rest] w2] eqn:Et.
        * intros [= _ <-]. etransitivity; [exact Hr1|].
          eapply IH; [|exact Et].
          etransitivity; [|exact Hl].
          apply forallb_agree. intros [source|c]; [|reflexivity].
          apply has_containers_keeps, reads_keeps, Hr1.
        * intros [= _ <-]. etransitivity; [exact Hr1|].
          eapply IH; [|exact Et].
          etransitivity; [|exact Hl].
          apply forallb_agree. intros [source|c]; [|reflexivity].
          apply has_containers_keeps, reads_keeps, Hr1. }
  rewrite bind_unfold in Hrun.
  destruct (map_M _ l w) as [[e|ids] w1] eqn:Em.
  - injection Hrun as _ <-. exact (Hloop _ _ _ _ Hl Em).
  - injection Hrun as _ <-. exact (Hloop _ _ _ _ Hl Em).
Qed.

Lemma get_net_reads self : preserves reads (_get_net self).
Proof. unfold _get_net. solve_preserves. Qed.

Lemma get_container_host_config_reads self override_options one_off (w w' : world)
    (s : Service) hc :
  service_objects w !! self = Some s ->
  volumes_at_hand w s = true ->
  _get_container_host_config create_container_of self override_options one_off w
  = (Ok hc, w') ->
  reads w w'.
Proof.
  intros Hs Hv Hrun. unfold _get_container_host_config in Hrun.
  inv_bind Hrun. apply get_service_inv in E as [_ ->].
  inv_bind Hrun. apply lift_ok in E as [_ ->].
  inv_bind Hrun. apply lift_ok in E as [_ ->].
  inv_bind Hrun. apply lift_ok in E as [_ ->].
  inv_bind Hrun. apply lift_ok in E as [_ ->].
  inv_bind Hrun. apply get_links_reads in E. rename w0 into w1.
  assert (service_objects w1 !! self = Some s) as Hs1
    by (destruct E as [[_ Hsv] _]; congruence).
  assert (volumes_at_hand w1 s = true) as Hv1
    by (rewrite (volumes_at_hand_keeps w w1 s (reads_keeps _ _ E)); exact Hv).
  inv_bind Hrun. apply (get_volumes_from_reads _ _ _ _ _ Hs1 Hv1) in E0.
  inv_bind Hrun. apply get_net_reads in E1. injection Hrun as _ <-.
  etransitivity; [exact E|etransitivity; eassumption].
Qed.

(** With a container at hand for every volume source, the labels of
    the create options bind the project, service and one-off keys to the
    values of the service, and the container-number and version keys to
    the number given and to the engine's version, whatever the declared
    labels say for these keys. *)
Lemma create_options_labels_at_hand self override_options number one_off previous w w' s
    opts hc :
  service_objects w !! self = Some s ->
  volumes_at_hand w s = true ->
  _get_container_create_options create_container_of self override_options number
    one_off previous w = (Ok (opts, hc), w') ->
  exists target labels,
    opts !! "labels" = Some (VRef target) /\
    dict_objects w' !! target = Some labels /\
    labelled __version__ s one_off number labels.
Proof.
  intros Hs Hv Hrun.
  destruct (create_options_run _ _ _ _ _ _ _ _ _ _ _ Hs Hrun)
    as (target & final & env & image & rest & binds & w1 & -> & _ & Hk & Hfinal & Hl & Hhc).
  exists target, final. split; [|split; [|exact Hl]].
  - rewrite lookup_fold_delete
      by (unfold DOCKER_START_KEYS; rewrite !elem_of_cons, elem_of_nil; intuition discriminate).
    apply lookup_insert_eq.
  - assert (service_objects w1 !! self = Some s) as Hs1 by (destruct Hk; congruence).
    assert (volumes_at_hand w1 s = true) as Hv1
      by (rewrite (volumes_at_hand_keeps w w1 s Hk); exact Hv).
    destruct (get_container_host_config_reads _ _ _ _ _ _ _ Hs1 Hv1 Hhc) as [_ ->].
    exact Hfinal.
Qed.

End AtHand.

(** ** 4.H Plan executor *)

(** C8. In [recreate_container], a [stop] that fails with a runtime API
    error of status 500 whose explanation contains ["no such process"]
    counts as a [stop] that succeeded: the protocol goes on with rename,
    create, start and remove from the world the failed call left.  A
    [stop] that fails in any other way ends [recreate_container] with that
    very error, and nothing more is done. *)
Theorem recreate_container_stop `{Constants} `{Runtime} `{SetOrder}
    (depth : nat) (self : sref) (container : Container.t) (insecure_registry : bool)
    (w w1 : world) (r : result unit) :
  Container_stop container None w = (r, w1) ->
  (r = Ok tt
   \/ (exists explanation,
         r = Err (APIError 500 (Some explanation))
         /\ PyStr.contains "no such process" explanation = true) ->
   recreate_container depth self container insecure_registry w
   = recreate_after_stop depth self container insecure_registry w1) /\
  (forall e, r = Err e ->
     (forall explanation,
        e = APIError 500 (Some explanation) ->
        PyStr.contains "no such process" explanation = false) ->
     recreate_container depth self container insecure_registry w = (Err e, w1)).
Proof.
  intros Hstop. unfold recreate_container, recreate_after_stop.
  rewrite bind_unfold. unfold try_except. rewrite Hstop. split.
  - intros [->|(explanation & -> & Hc)]; [reflexivity|].
    unfold no_such_process. rewrite Hc.
    destruct explanation; [discriminate|]. reflexivity.
  - intros e -> Hother. cbv beta.
    assert (no_such_process e = false) as ->; [|reflexivity].
    unfold no_such_process.
    destruct e as [| | | |status [explanation|]| | | | | | | | | |];
      try reflexivity; [|apply andb_false_r].
    destruct (Z.eqb_spec status 500) as [->|Hne]; [|reflexivity].
    rewrite (Hother explanation eq_refl). apply andb_false_r.
Qed.

Lemma recreate_container_stop_witness :
  let c := Container.mk "c6" "myapp_web_1" "" false
             {[ LABEL_CONTAINER_NUMBER := "1" ]} None None in
  (@recreate_container Demo.constants Demo.runtime_without_process Demo.order
     3 0 c false Demo.halted
   = @recreate_after_stop Demo.constants Demo.runtime_without_process Demo.order
       3 0 c false (record_call (call_stop "c6" None) Demo.halted))
  /\ (@recreate_container Demo.constants Demo.runtime_busy Demo.order
        3 0 c false Demo.halted
      = (Err Demo.busy, record_call (call_stop "c6" None) Demo.halted)).
Proof.
  intros c. split.
  - apply (proj1 (@recreate_container_stop Demo.constants Demo.runtime_without_process
                    Demo.order 3 0 c false Demo.halted _ (Err Demo.gone) eq_refl)).
    right. eexists. split; reflexivity.
  - apply (proj2 (@recreate_container_stop Demo.constants Demo.runtime_busy
                    Demo.order 3 0 c false Demo.halted _ (Err Demo.busy) eq_refl)
             Demo.busy eq_refl).
    intros explanation [= <-]. reflexivity.
Defined.

(** ** 4.E Volume migrator *)

Lemma map_result_ok {A B} (f : A -> result B) (l : list A) (ys : list B) :
  map_result f l = Ok ys -> Forall2 (fun x y => f x = Ok y) l ys.
Proof.
  revert ys. induction l as [|x l IH]; intros ys; simpl.
  - intros [= <-]. constructor.
  - destruct (f x) as [e|y] eqn:Ex; [discriminate|]. cbn.
    destruct (map_result f l) as [e|ys'] eqn:El; [discriminate|]. cbn.
    intros [= <-]. constructor; [assumption|]. now apply IH.
Qed.

Lemma elem_of_omap_results {A B} (f : A -> result (option B)) (l : list A)
    (ys : list (option B)) (p : B) :
  Forall2 (fun x y => f x = Ok y) l ys ->
  p ∈ omap id ys <-> exists x, x ∈ l /\ f x = Ok (Some p).
Proof.
  intros Hall. rewrite list_elem_of_omap. split.
  - intros (y & Hy & Hid). cbn in Hid. subst y.
    apply list_elem_of_lookup in Hy as (i & Hi).
    destruct (Forall2_lookup_r _ _ _ _ _ Hall Hi) as (x & Hx & Hfx).
    exists x. split; [|assumption]. apply list_elem_of_lookup. eauto.
  - intros (x & Hx & Hfx).
    apply list_elem_of_lookup in Hx as (i & Hi).
    destruct (Forall2_lookup_l _ _ _ _ _ Hall Hi) as (y & Hy & Hfy).
    exists y. split; [apply list_elem_of_lookup; eauto|].
    rewrite Hfx in Hfy. now injection Hfy as <-.
Qed.

(** [dict(pairs)] at a key that the pairs bind to one value only. *)
Lemma py_update_pairs_lookup `{Countable K} {V} (pairs : list (K * V)) (d : gmap K V)
    (k : K) (v : V) :
  (k, v) ∈ pairs -> (forall v', (k, v') ∈ pairs -> v' = v) ->
  py_update_pairs d pairs !! k = Some v.
Proof.
  unfold py_update_pairs.
  assert (forall d : gmap K V, d !! k = Some v \/ (k, v) ∈ pairs ->
                    (forall v', (k, v') ∈ pairs -> v' = v) ->
                    fold_left (fun m kv => <[kv.1 := kv.2]> m) pairs d !! k = Some v)
    as Hgen.
  { induction pairs as [|[k' v'] pairs IH]; intros d' Hin Huniq; simpl.
    - destruct Hin as [?|Hin]; [assumption|]. now apply elem_of_nil in Hin.
    - apply IH.
      + destruct (decide (k' = k)) as [->|Hne].
        * left. rewrite (Huniq v') by left. apply lookup_insert_eq.
        * destruct Hin as [Hd|Hin].
          -- left. now rewrite lookup_insert_ne.
          -- right. apply elem_of_cons in Hin as [[= ? ?]|Hin]; [congruence|assumption].
      + intros v'' Hin''. apply Huniq. now right. }
  intros Hin Huniq. apply Hgen; auto.
Qed.

Lemma py_update_pairs_lookup_other `{Countable K} {V} (pairs : list (K * V)) (d : gmap K V)
    (k : K) :
  (forall v, (k, v) ∉ pairs) -> py_update_pairs d pairs !! k = d !! k.
Proof.
  unfold py_update_pairs. revert d.
  induction pairs as [|[k' v'] pairs IH]; intros d Hnot; simpl; [reflexivity|].
  rewrite IH.
  - apply lookup_insert_ne. intros ->. apply (Hnot v'). left.
  - intros v Hin. apply (Hnot v). now right.
Qed.

Lemma parse_volume_spec_external (v : string) (spec : VolumeSpec) (ext : string) :
  parse_volume_spec v = Ok spec -> external spec = Some ext -> PyStr.mem ":" v = true.
Proof.
  intros Hparse Hext. destruct (PyStr.mem ":" v) eqn:E; [reflexivity|].
  unfold parse_volume_spec in Hparse. rewrite (split_no_sep _ _ E) in Hparse.
  injection Hparse as <-. discriminate.
Qed.

Section Migration.

Context `{SetOrder}.

(** The volume [v] is one that migration carries over from the old
    volume map, to the host path [host]. *)
Definition migrated (old : gmap string string) (v host : string) (spec : VolumeSpec)
  : Prop :=
  parse_volume_spec v = Ok spec /\
  (external spec = None \/ external spec = Some "") /\
  old !! internal spec = Some host /\ host <> "".

Lemma data_volume_some (old : gmap string string) (v : string)
    (k : option string) (b : binding) :
  data_volume old v = Ok (Some (k, b)) <->
  exists host spec,
    migrated old v host spec /\ k = Some host /\
    b = mkBinding (internal spec) (String.eqb (mode spec) "ro").
Proof.
  unfold data_volume, migrated. split.
  - destruct (parse_volume_spec v) as [e|spec]; [discriminate|]. cbn.
    destruct (external spec) as [[|c ext]|] eqn:Eext; [| discriminate |];
      (destruct (old !! internal spec) as [[|c' host]|] eqn:Eold; [discriminate| |discriminate]);
      intros [= <- <-]; exists (String c' host), spec;
      repeat split; auto; discriminate.
  - intros (host & spec & (-> & Hext & Hold & Hne) & -> & ->). cbn.
    rewrite Hold. destruct host; [congruence|].
    destruct Hext as [-> | ->]; reflexivity.
Qed.

(** C3, as the code has it.  In the bindings that [merge_volume_bindings]
    returns for a previous container, whose keys are host paths:
    - a volume of the declaration or of the image's volumes that has no
      external side and whose internal path is in the previous
      container's volume map is bound under the host path found there,
      provided no other such volume is carried to the same host path;
    - a declared volume with an external side keeps its binding under
      that external side, provided no other declared volume names the
      same external side and no volume is carried over to it. *)
Theorem merge_volume_bindings_migration (volumes_option : list string)
    (previous : Container.t) (bindings : gmap (option string) binding) :
  merge_volume_bindings volumes_option (Some previous) = Ok bindings ->
  let old := default ∅ (Container.Volumes previous) in
  let candidates := volumes_option ++ default [] (Container.image_volumes previous) in
  (forall v host spec,
     v ∈ candidates -> migrated old v host spec ->
     (forall v' spec', v' ∈ candidates -> migrated old v' host spec' -> v' = v) ->
     bindings !! Some host
     = Some (mkBinding (internal spec) (String.eqb (mode spec) "ro"))) /\
  (forall v ext spec,
     v ∈ volumes_option -> parse_volume_spec v = Ok spec -> external spec = Some ext ->
     (forall v' spec', v' ∈ volumes_option -> parse_volume_spec v' = Ok spec' ->
                       external spec' = Some ext -> v' = v) ->
     (forall v' spec', v' ∈ candidates -> ~ migrated old v' ext spec') ->
     bindings !! Some ext
     = Some (mkBinding (internal spec) (String.eqb (mode spec) "ro"))).
Proof.
  intros Hrun old candidates. unfold merge_volume_bindings in Hrun.
  destruct (map_result parse_volume_spec _) as [e|specs] eqn:Especs; [discriminate|].
  cbn in Hrun. unfold get_container_data_volumes in Hrun.
  fold old in Hrun. fold candidates in Hrun.
  destruct (map_result (data_volume old) (set_iter candidates)) as [e|volumes] eqn:Evol;
    [discriminate|].
  cbn in Hrun. injection Hrun as <-.
  apply map_result_ok in Especs, Evol.
  pose proof (fun p => elem_of_omap_results _ _ _ p Evol) as Hmem.
  unfold py_update. split.
  - intros v host spec Hin Hmig Huniq.
    apply lookup_union_Some_l. apply py_update_pairs_lookup.
    + apply Hmem. exists v. split; [now apply set_iter_elem|].
      apply data_volume_some. eauto.
    + intros b' Hb'. apply Hmem in Hb' as (v' & Hv' & Hdv).
      apply data_volume_some in Hdv as (host' & spec' & Hmig' & [= <-] & ->).
      apply (proj1 (set_iter_elem _ _)) in Hv'. rewrite (Huniq v' spec' Hv' Hmig') in Hmig'.
      destruct Hmig as (Hp & _), Hmig' as (Hp' & _).
      rewrite Hp in Hp'. now injection Hp' as <-.
  - intros v ext spec Hin Hparse Hext Huniq Hfree.
    rewrite lookup_union_r.
    + apply py_update_pairs_lookup.
      * apply list_elem_of_In, in_map_iff. exists spec.
        split; [unfold build_volume_binding; now rewrite Hext|].
        apply list_elem_of_In.
        assert (v ∈ filter (fun v => PyStr.mem ":" v = true) volumes_option) as Hf.
        { apply list_elem_of_filter. split; [|assumption].
          eapply parse_volume_spec_external; eassumption. }
        apply list_elem_of_lookup in Hf as (i & Hi).
        destruct (Forall2_lookup_l _ _ _ _ _ Especs Hi) as (spec0 & Hs0 & Hp0).
        rewrite Hparse in Hp0. injection Hp0 as <-.
        apply list_elem_of_lookup. eauto.
      * intros b' Hb'. apply list_elem_of_In, in_map_iff in Hb' as (spec' & Heq & Hs').
        unfold build_volume_binding in Heq. injection Heq as Hext' <-.
        apply list_elem_of_In, list_elem_of_lookup in Hs' as (i & Hi).
        destruct (Forall2_lookup_r _ _ _ _ _ Especs Hi) as (v' & Hv' & Hp').
        assert (v' ∈ volumes_option) as Hin'.
        { assert (v' ∈ filter (fun v => PyStr.mem ":" v = true) volumes_option) as Hf
            by (apply list_elem_of_lookup; eauto).
          now apply list_elem_of_filter in Hf as [_ ?]. }
        rewrite (Huniq v' spec' Hin' Hp' Hext') in Hp'.
        rewrite Hparse in Hp'. now injection Hp' as <-.
    + unfold py_dict. rewrite py_update_pairs_lookup_other; [apply lookup_empty|].
      intros b' Hb'.
      apply Hmem in Hb' as (v' & Hv' & Hdv).
      apply data_volume_some in Hdv as (host' & spec' & Hmig' & [= <-] & _).
      apply (proj1 (set_iter_elem _ _)) in Hv'. exact (Hfree v' spec' Hv' Hmig').
Qed.

End Migration.

Lemma merge_volume_bindings_migration_witness :
  exists bindings,
    @merge_volume_bindings Demo.order ["/data"; "/srv/www:/var/www:ro"] (Some Demo.old_web)
    = Ok bindings /\
    bindings !! Some "/var/lib/docker/vfs/dir/aa" = Some (mkBinding "/data" false) /\
    bindings !! Some "/var/lib/docker/vfs/dir/bb" = Some (mkBinding "/cache" false) /\
    bindings !! Some "/srv/www" = Some (mkBinding "/var/www" true).
Proof.
  destruct (@merge_volume_bindings Demo.order ["/data"; "/srv/www:/var/www:ro"]
              (Some Demo.old_web)) as [e|bindings] eqn:E.
  - exfalso. vm_compute in E. discriminate.
  - exists bindings. split; [reflexivity|].
    destruct (@merge_volume_bindings_migration Demo.order _ _ _ E) as [Hcarried Hkept].
    clear E. repeat split.
    + apply (Hcarried "/data" _ (mkVolumeSpec None "/data" "rw")).
      * set_solver.
      * repeat split; auto; first [discriminate | vm_compute; reflexivity].
      * intros v' spec' Hin (Hp & _ & Hold & _). cbn in Hin.
        repeat (apply elem_of_cons in Hin as [->|Hin]);
          first [ reflexivity
                | now apply elem_of_nil in Hin
                | vm_compute in Hp; injection Hp as <-; vm_compute in Hold; discriminate ].
    + apply (Hcarried "/cache" _ (mkVolumeSpec None "/cache" "rw")).
      * set_solver.
      * repeat split; auto; first [discriminate | vm_compute; reflexivity].
      * intros v' spec' Hin (Hp & _ & Hold & _). cbn in Hin.
        repeat (apply elem_of_cons in Hin as [->|Hin]);
          first [ reflexivity
                | now apply elem_of_nil in Hin
                | vm_compute in Hp; injection Hp as <-; vm_compute in Hold; discriminate ].
    + apply (Hkept "/srv/www:/var/www:ro" _ (mkVolumeSpec (Some "/srv/www") "/var/www" "ro")).
      * set_solver.
      * reflexivity.
      * reflexivity.
      * intros v' spec' Hin Hp Hext. cbn in Hin.
        repeat (apply elem_of_cons in Hin as [->|Hin]);
          first [ reflexivity
                | now apply elem_of_nil in Hin
                | vm_compute in Hp; injection Hp as <-; discriminate ].
      * intros v' spec' Hin (Hp & _ & Hold & _). cbn in Hin.
        repeat (apply elem_of_cons in Hin as [->|Hin]);
          first [ now apply elem_of_nil in Hin
                | vm_compute in Hp; injection Hp as <-; vm_compute in Hold; discriminate ].
Defined.

(** C3 as stated fails where two volumes meet on one host path, since
    the bindings are keyed by host path.  The declared volume ["/a"],
    without external side and present in the previous container's volume
    map, is lost to ["/b"]; and the external side ["/h"] declared for
    ["/x"] is taken over by the migration of ["/b"]. *)
Lemma migration_collides :
  (@merge_volume_bindings Demo.order ["/a"; "/b"] (Some Demo.clash)
   = Ok {[ Some "/h" := mkBinding "/b" false ]})
  /\ (@merge_volume_bindings Demo.order ["/h:/x"; "/b"] (Some Demo.clash)
      = Ok {[ Some "/h" := mkBinding "/b" false ]})
  /\ ({[ Some "/h" := mkBinding "/b" false ]} : gmap (option string) binding) !! Some "/h"
     <> Some (mkBinding "/a" false)
  /\ ({[ Some "/h" := mkBinding "/b" false ]} : gmap (option string) binding) !! Some "/h"
     <> Some (mkBinding "/x" false).
Proof.
  repeat split; try (vm_compute; reflexivity); vm_compute; discriminate.
Qed.

(** ** 4.I Scaler *)

Lemma on_container_ok i f (w w' : world) :
  on_container i f w = (Ok tt, w') ->
  daemon_containers w'
  = map (fun c => if has_id i c then f c else c) (daemon_containers w) /\
  service_objects w' = service_objects w.
Proof.
  unfold on_container, no_such_container.
  destruct (existsb _ _); [|discriminate]. intros [= <-]. auto.
Qed.

Lemma client_start_ok `{Runtime} i (w w' : world) :
  client_start i w = (Ok tt, w') ->
  daemon_containers w'
  = map (fun c => if has_id i c then Container.set_running true c else c)
      (daemon_containers w) /\
  service_objects w' = service_objects w.
Proof. intros Hrun. apply api_ok in Hrun. now apply on_container_ok in Hrun. Qed.

Lemma client_stop_ok `{Runtime} i timeout (w w' : world) :
  client_stop i timeout w = (Ok tt, w') ->
  daemon_containers w'
  = map (fun c => if has_id i c then Container.set_running false c else c)
      (daemon_containers w) /\
  service_objects w' = service_objects w.
Proof. intros Hrun. apply api_ok in Hrun. now apply on_container_ok in Hrun. Qed.

Lemma client_remove_container_ok `{Runtime} i (w w' : world) :
  client_remove_container i w = (Ok tt, w') ->
  daemon_containers w'
  = List.filter (fun c => negb (has_id i c)) (daemon_containers w) /\
  service_objects w' = service_objects w.
Proof.
  intros Hrun. apply api_ok in Hrun. unfold no_such_container in Hrun.
  destruct (existsb _ _); [|discriminate]. injection Hrun as <-. auto.
Qed.

Lemma client_create_container_ok `{Runtime} opts hc (w w' : world) c :
  client_create_container opts hc w = (Ok c, w') ->
  Container.labels c = match opts !! "labels" with
                       | Some (VDict d) => d
                       | _ => ∅
                       end /\
  Container.is_running c = false /\
  (Container.id c ∉ ids w) /\
  daemon_containers w' = c :: daemon_containers w /\
  service_objects w' = service_objects w.
Proof.
  intros Hrun. apply api_ok in Hrun. cbv beta zeta in Hrun.
  match type of Hrun with
  | (if existsb (has_id (Container.id ?x)) _ || _ then _ else _) = _ => set (c0 := x) in *
  end.
  destruct (existsb (has_id (Container.id c0)) _ || _) eqn:E; [discriminate|].
  injection Hrun as <- <-.
  apply orb_false_iff in E as [Eid _]. apply existsb_has_id_false in Eid.
  repeat split; auto.
Qed.

Lemma matches_labels (s : Service) (one_off : bool) (c : Container.t) :
  Container.labels c !! LABEL_PROJECT = Some (project s) ->
  Container.labels c !! LABEL_SERVICE = Some (name s) ->
  Container.labels c !! LABEL_ONE_OFF = Some (if one_off then "True" else "False") ->
  matches (labels s one_off) c = true.
Proof.
  intros Hp Hs Ho. unfold matches, labels, label_matches, PyStr.split1. cbn [forallb].
  change (LABEL_PROJECT +:+ "=" +:+ project s)
    with (LABEL_PROJECT +:+ String "=" (project s)).
  change (LABEL_SERVICE +:+ "=" +:+ name s)
    with (LABEL_SERVICE +:+ String "=" (name s)).
  change (LABEL_ONE_OFF +:+ "=" +:+ (if one_off then "True" else "False"))
    with (LABEL_ONE_OFF +:+ String "=" (if one_off then "True" else "False")).
  rewrite !partition_app by reflexivity.
  rewrite !bool_decide_eq_true_2 by assumption. reflexivity.
Qed.

Lemma grows_ids (w w' : world) (i : string) : grows w w' -> i ∈ ids w -> i ∈ ids w'.
Proof.
  intros [_ (added & E & _)] Hi. unfold ids in *. rewrite E, map_app.
  apply elem_of_app. now right.
Qed.

Lemma grows_elem (w w' : world) (c : Container.t) :
  grows w w' -> c ∈ daemon_containers w -> c ∈ daemon_containers w'.
Proof. intros [_ (added & E & _)] Hc. rewrite E. apply elem_of_app. now right. Qed.

Section CreateContainer.

Context `{Constants} `{Runtime} `{SetOrder}.

(** With a container at hand for every volume source, a container
    that [create_container] returns is in the runtime, not running, carries
    the labels by which the service finds its containers, and has an id
    that no container had before. *)
Lemma create_container_ok depth self one_off insecure do_build previous number override
    (w w' : world) (c : Container.t) (s : Service) :
  create_container depth self one_off insecure do_build previous number override w
  = (Ok c, w') ->
  service_objects w !! self = Some s ->
  volumes_at_hand w s = true ->
  grows w w' /\
  c ∈ daemon_containers w' /\
  Container.is_running c = false /\
  matches (labels s one_off) c = true /\
  (Container.id c ∉ ids w).
Proof.
  intros Hrun Hs Hv.
  assert (grows w w') as Hg by (eapply create_container_grows; eassumption).
  split; [assumption|].
  destruct depth as [|depth]; [discriminate|]. cbn [create_container] in Hrun.
  inv_bind Hrun. inv_bind Hrun. inv_bind Hrun. destruct a1 as [opts hc].
  assert (reads w w0) as Hr0 by (eapply ensure_image_exists_reads; eassumption).
  assert (reads w0 w1) as Hr1.
  { match type of E0 with
    | ?m w0 = _ => assert (preserves reads m) as Hp by solve_preserves
    end.
    exact (Hp _ _ _ E0). }
  assert (keeps w w1) as Hk by (apply reads_keeps; etransitivity; eassumption).
  assert (service_objects w1 !! self = Some s) as Hs1 by (destruct Hk; congruence).
  assert (volumes_at_hand w1 s = true) as Hv1
    by (rewrite (volumes_at_hand_keeps w w1 s Hk); exact Hv).
  destruct (create_options_labels_at_hand _ _ _ _ _ _ _ _ _ _ _ Hs1 Hv1 E1)
    as (target & final & Hopts & Hfinal & Lp & Ls & Lo & _).
  assert (grows w1 w2) as Hg2
    by (eapply get_container_create_options_grows;
        [intros source; apply create_container_grows|eassumption]).
  unfold Container_create in Hrun. inv_bind Hrun. apply snapshot_ok in E2 as [-> ->].
  apply client_create_container_ok in Hrun as (Hl & Hr & Hid & Hdc & _).
  rewrite lookup_fmap, Hopts in Hl. cbn in Hl. rewrite Hfinal in Hl. cbn in Hl.
  repeat split.
  - rewrite Hdc. left.
  - assumption.
  - apply matches_labels; rewrite Hl; assumption.
  - intros Hin. apply Hid. eapply grows_ids; [|eassumption].
    etransitivity; [|exact Hg2]. destruct Hk as [Hdc1 Hsv1].
    split; [exact Hsv1|]. exists []. repeat split; [exact Hdc1|constructor|].
    unfold ids. now rewrite Hdc1.
Qed.

End CreateContainer.

Lemma same_id_same_entry (cs : list Container.t) (d1 d2 : Container.t) :
  NoDup (map Container.id cs) -> d1 ∈ cs -> d2 ∈ cs ->
  Container.id d1 = Container.id d2 -> d1 = d2.
Proof.
  induction cs as [|c cs IH]; intros Hnd H1 H2 Hid; [now apply elem_of_nil in H1|].
  cbn in Hnd. apply NoDup_cons in Hnd as [Hc Hnd].
  apply elem_of_cons in H1 as [->|H1], H2 as [->|H2]; auto.
  - exfalso. apply Hc. rewrite Hid. apply list_elem_of_In, in_map, list_elem_of_In, H2.
  - exfalso. apply Hc. rewrite <- Hid. apply list_elem_of_In, in_map, list_elem_of_In, H1.
Qed.

Section ScaleInvariant.

Variable L : list string.

(** The handle [c] stands for a container of the service that the
    runtime holds in the given running state. *)
Definition tracks (state : bool) (w : world) (c : Container.t) : Prop :=
  exists d, d ∈ daemon_containers w /\ Container.id d = Container.id c /\
            Container.is_running d = state /\ matches L d = true.

(** What [scale] knows between its loops: its two lists are handles, with
    distinct ids, of running and of stopped containers of the service, and
    no running container of the service is missing from the first. *)
Record scale_inv (w : world) (running stopped : list Container.t) : Prop := {
  inv_ids : NoDup (ids w);
  inv_running_nodup : NoDup (map Container.id running);
  inv_stopped_nodup : NoDup (map Container.id stopped);
  inv_running : Forall (tracks true w) running;
  inv_stopped : Forall (tracks false w) stopped;
  inv_complete : forall d, d ∈ daemon_containers w -> matches L d = true ->
                           Container.is_running d = true ->
                           Container.id d ∈ map Container.id running }.

Lemma tracks_disjoint (w : world) (c1 c2 : Container.t) :
  NoDup (ids w) -> tracks true w c1 -> tracks false w c2 ->
  Container.id c1 <> Container.id c2.
Proof.
  intros Hnd (d1 & Hd1 & Hid1 & Hr1 & _) (d2 & Hd2 & Hid2 & Hr2 & _) Heq.
  assert (d1 = d2) by (eapply same_id_same_entry; eauto; congruence).
  congruence.
Qed.

(** The effect of starting or stopping the container [i]. *)
Definition switched (i : string) (state : bool) (w w' : world) : Prop :=
  daemon_containers w'
  = map (fun c => if has_id i c then Container.set_running state c else c)
      (daemon_containers w).

Lemma switched_ids i state (w w' : world) : switched i state w w' -> ids w' = ids w.
Proof.
  unfold switched, ids. intros ->. rewrite map_map. apply map_ext.
  intros c. now destruct (has_id i c).
Qed.

Lemma switched_tracks_this i state state0 (w w' : world) c :
  switched i state w w' -> Container.id c = i -> tracks state0 w c -> tracks state w' c.
Proof.
  intros Hsw Hid (d & Hd & Hidd & _ & Hm).
  exists (Container.set_running state d). repeat split; auto.
  rewrite Hsw. apply list_elem_of_In, in_map_iff. exists d.
  split; [|now apply list_elem_of_In].
  unfold has_id. rewrite bool_decide_eq_true_2 by congruence. reflexivity.
Qed.

Lemma switched_tracks_other i state state0 (w w' : world) c :
  switched i state w w' -> Container.id c <> i -> tracks state0 w c -> tracks state0 w' c.
Proof.
  intros Hsw Hid (d & Hd & Hidd & Hr & Hm).
  exists d. repeat split; auto.
  rewrite Hsw. apply list_elem_of_In, in_map_iff. exists d.
  split; [|now apply list_elem_of_In].
  unfold has_id. rewrite bool_decide_eq_false_2 by congruence. reflexivity.
Qed.

Lemma switched_entry i state (w w' : world) d' :
  switched i state w w' -> d' ∈ daemon_containers w' ->
  exists d, d ∈ daemon_containers w /\
            d' = if has_id i d then Container.set_running state d else d.
Proof.
  intros Hsw Hd'. rewrite Hsw in Hd'.
  apply list_elem_of_In, in_map_iff in Hd' as (d & <- & Hd).
  exists d. split; [now apply list_elem_of_In|reflexivity].
Qed.

Lemma elem_of_ids (c : Container.t) (l : list Container.t) :
  c ∈ l -> Container.id c ∈ map Container.id l.
Proof. intros Hc. now apply list_elem_of_In, in_map, list_elem_of_In. Qed.

(** Stopping the last of the running list and moving it to the stopped
    list keeps what [scale] knows. *)
Lemma scale_inv_stop (w w' : world) (rest stopped : list Container.t) (c : Container.t) :
  scale_inv w (rest ++ [c]) stopped ->
  switched (Container.id c) false w w' ->
  scale_inv w' rest (stopped ++ [c]).
Proof.
  intros [Hids Hrn Hsn Hr Hs Hcomplete] Hsw.
  rewrite map_app in Hrn. apply NoDup_app in Hrn as (Hrn & Hdisj & _).
  apply Forall_app in Hr as [Hr Hc]. apply Forall_inv in Hc.
  assert (forall c', c' ∈ rest -> Container.id c' <> Container.id c) as Hrest.
  { intros c' Hc' Heq. apply (Hdisj (Container.id c')); [now apply elem_of_ids|].
    rewrite Heq. left. }
  split.
  - now rewrite (switched_ids _ _ _ _ Hsw).
  - assumption.
  - rewrite map_app. apply NoDup_app.
    repeat split; [assumption| |repeat constructor; apply not_elem_of_nil].
    intros i Hi Hi'. apply list_elem_of_singleton in Hi'. subst i.
    apply list_elem_of_In, in_map_iff in Hi as (c' & Hid & Hc').
    apply list_elem_of_In in Hc'.
    rewrite Forall_forall in Hs.
    apply (tracks_disjoint w c c' Hids Hc (Hs c' Hc')). congruence.
  - apply Forall_forall. intros c' Hc'. rewrite Forall_forall in Hr.
    eapply switched_tracks_other; eauto.
  - apply Forall_app. split.
    + apply Forall_forall. intros c' Hc'. rewrite Forall_forall in Hs.
      eapply switched_tracks_other; eauto.
      intros Heq. apply (tracks_disjoint w c c' Hids Hc (Hs c' Hc')). congruence.
    + apply Forall_singleton. eapply switched_tracks_this; eauto.
  - intros d' Hd' Hm' Hr'.
    destruct (switched_entry _ _ _ _ _ Hsw Hd') as (d & Hd & ->).
    unfold has_id in *. destruct (bool_decide (Container.id d = Container.id c)) eqn:E;
      [discriminate|].
    apply bool_decide_eq_false in E.
    specialize (Hcomplete d Hd Hm' Hr'). rewrite map_app in Hcomplete.
    apply elem_of_app in Hcomplete as [?|Hc']; [assumption|].
    apply list_elem_of_singleton in Hc'. congruence.
Qed.

(** Starting the first of the stopped list and moving it to the running
    list keeps what [scale] knows. *)
Lemma scale_inv_start (w w' : world) (running rest : list Container.t) (c : Container.t) :
  scale_inv w running (c :: rest) ->
  switched (Container.id c) true w w' ->
  scale_inv w' (running ++ [c]) rest.
Proof.
  intros [Hids Hrn Hsn Hr Hs Hcomplete] Hsw.
  cbn in Hsn. apply NoDup_cons in Hsn as [Hc_rest Hsn].
  apply Forall_cons in Hs as [Hc Hs].
  rewrite Forall_forall in Hr, Hs.
  split.
  - now rewrite (switched_ids _ _ _ _ Hsw).
  - rewrite map_app. apply NoDup_app.
    repeat split; [assumption| |repeat constructor; apply not_elem_of_nil].
    intros i Hi Hi'. apply list_elem_of_singleton in Hi'. subst i.
    apply list_elem_of_In, in_map_iff in Hi as (c' & Hid & Hc').
    apply list_elem_of_In in Hc'.
    apply (tracks_disjoint w c' c Hids (Hr c' Hc') Hc). congruence.
  - assumption.
  - apply Forall_app. split.
    + apply Forall_forall. intros c' Hc'.
      destruct (decide (Container.id c' = Container.id c)) as [Heq|Hne].
      * eapply switched_tracks_this; eauto.
      * eapply switched_tracks_other; eauto.
    + apply Forall_singleton. eapply switched_tracks_this; eauto.
  - apply Forall_forall. intros c' Hc'.
    eapply switched_tracks_other; eauto.
    intros Heq. apply Hc_rest. rewrite <- Heq. now apply elem_of_ids.
  - intros d' Hd' Hm' Hr'.
    destruct (switched_entry _ _ _ _ _ Hsw Hd') as (d & Hd & ->).
    rewrite map_app. apply elem_of_app.
    unfold has_id in *. destruct (bool_decide (Container.id d = Container.id c)) eqn:E.
    + apply bool_decide_eq_true in E. right. cbn. rewrite E. left.
    + left. now apply Hcomplete.
Qed.

End ScaleInvariant.

Lemma sort_by_number_perm (l l' : list Container.t) :
  sort_by_number l = Ok l' -> l' ≡ₚ l.
Proof.
  unfold sort_by_number. destruct (map_result Container.number l) as [e|keys] eqn:E;
    [discriminate|].
  cbn. intros [= <-]. apply map_result_ok in E.
  assert (forall kl : list (Z * Container.t),
            fold_right insert_by_key [] kl ≡ₚ kl) as Hsort.
  { assert (forall x kl, insert_by_key x kl ≡ₚ x :: kl) as Hins.
    { intros x kl. induction kl as [|y kl IH]; simpl; [reflexivity|].
      destruct (x.1 <=? y.1)%Z; [reflexivity|].
      rewrite IH. apply Permutation_swap. }
    induction kl as [|x kl IH]; simpl; [reflexivity|].
    rewrite Hins. now constructor. }
  rewrite Hsort.
  assert (length keys = length l) as Hlen by (symmetry; eapply Forall2_length; eassumption).
  clear E. revert keys Hlen. induction l as [|c l IH]; intros [|k keys] Hlen;
    try discriminate; simpl; [reflexivity|].
  constructor. apply IH. now injection Hlen.
Qed.

Section ScaleLoops.

Context `{Constants} `{Runtime} `{SetOrder}.
Variable L : list string.

(** The loop that stops the containers in excess keeps what [scale]
    knows, leaves at most the wanted count running, and never runs out of
    iterations when started with one more than the length of the list. *)
Lemma stop_excess_ok fuel desired_num :
  forall running stopped w running' stopped' w',
    stop_excess fuel desired_num running stopped w = (Ok (running', stopped'), w') ->
    scale_inv L w running stopped ->
    scale_inv L w' running' stopped' /\
    (Z.of_nat (length running') <= desired_num)%Z /\
    service_objects w' = service_objects w.
Proof.
  induction fuel as [|fuel IH]; intros running stopped w running' stopped' w' Hrun Hinv;
    simpl in Hrun.
  - destruct (desired_num <? Z.of_nat (length running))%Z eqn:E; [discriminate|].
    injection Hrun as <- <- <-. apply Z.ltb_ge in E. auto.
  - destruct (desired_num <? Z.of_nat (length running))%Z eqn:E.
    + destruct (List.rev running) as [|c rest] eqn:Erev; [discriminate|].
      inv_bind Hrun. destruct a.
      apply client_stop_ok in E0 as [Hsw Hsv].
      assert (running = List.rev rest ++ [c]) as ->.
      { rewrite <- (rev_involutive running), Erev. reflexivity. }
      destruct (IH _ _ _ _ _ _ Hrun (scale_inv_stop L _ _ _ _ _ Hinv Hsw))
        as (Hinv' & Hlen & Hsv').
      split; [assumption|split; [assumption|congruence]].
    + injection Hrun as <- <- <-. apply Z.ltb_ge in E. auto.
Qed.

(** The loop that starts the missing containers keeps what [scale]
    knows and ends with exactly the wanted count running. *)
Lemma start_missing_ok desired_num :
  forall stopped running w running' stopped' w',
    start_missing desired_num running stopped w = (Ok (running', stopped'), w') ->
    scale_inv L w running stopped ->
    (Z.of_nat (length running) <= desired_num)%Z ->
    scale_inv L w' running' stopped' /\
    Z.of_nat (length running') = desired_num /\
    service_objects w' = service_objects w.
Proof.
  induction stopped as [|c stopped IH]; intros running w running' stopped' w' Hrun Hinv Hle;
    simpl in Hrun.
  - destruct (Z.of_nat (length running) <? desired_num)%Z eqn:E; [discriminate|].
    injection Hrun as <- <- <-. apply Z.ltb_ge in E. split; [assumption|split; [lia|reflexivity]].
  - destruct (Z.of_nat (length running) <? desired_num)%Z eqn:E.
    + apply Z.ltb_lt in E.
      inv_bind Hrun. unfold start_container in E0. inv_bind E0.
      injection E0 as _ <-. destruct a0.
      apply client_start_ok in E1 as [Hsw Hsv].
      destruct (IH _ _ _ _ _ Hrun (scale_inv_start L _ _ _ _ _ Hinv Hsw))
        as (Hinv' & Hlen & Hsv').
      { rewrite length_app. cbn. lia. }
      split; [assumption|split; [assumption|congruence]].
    + injection Hrun as <- <- <-. apply Z.ltb_ge in E. split; [assumption|split; [lia|reflexivity]].
Qed.

End ScaleLoops.

Lemma NoDup_map_filter {A B} (f : A -> B) (p : A -> bool) (l : list A) :
  NoDup (map f l) -> NoDup (map f (List.filter p l)).
Proof.
  induction l as [|x l IH]; simpl; [auto|].
  intros Hnd. apply NoDup_cons in Hnd as [Hx Hnd].
  destruct (p x); [|auto]. simpl. apply NoDup_cons. split; [|auto].
  intros Hin. apply Hx.
  apply list_elem_of_In, in_map_iff in Hin as (y & Hy & Hin).
  apply filter_In in Hin as [Hin _].
  rewrite <- Hy. now apply list_elem_of_In, in_map.
Qed.

Lemma filter_filter_bool {A} (f g : A -> bool) (l : list A) :
  List.filter f (List.filter g l) = List.filter (fun x => g x && f x) l.
Proof.
  induction l as [|x l IH]; simpl; [reflexivity|].
  destruct (g x); simpl; [|assumption]. destruct (f x); now rewrite IH.
Qed.

Lemma filter_all {A} (f : A -> bool) (l : list A) :
  (forall x, x ∈ l -> f x = true) -> List.filter f l = l.
Proof.
  induction l as [|x l IH]; simpl; [reflexivity|]. intros Hall.
  rewrite (Hall x) by left. f_equal. apply IH. intros y Hy. apply Hall. now right.
Qed.

Lemma filter_agree {A} (f g : A -> bool) (l : list A) :
  (forall x, x ∈ l -> f x = g x) -> List.filter f l = List.filter g l.
Proof.
  induction l as [|x l IH]; simpl; [reflexivity|]. intros Hall.
  rewrite (Hall x) by left. rewrite IH; [reflexivity|].
  intros y Hy. apply Hall. now right.
Qed.

Section ScaleSteps.

Context `{Constants} `{Runtime} `{SetOrder}.

(** The loop that creates the missing containers adds handles of new,
    stopped containers of the service to the list, and touches no
    container that was there. *)
Lemma create_enough_ok depth self desired_num fuel :
  forall cs w cs' w' s,
    create_enough fuel depth self desired_num cs w = (Ok cs', w') ->
    service_objects w !! self = Some s ->
    volumes_at_hand w s = true ->
    NoDup (ids w) ->
    NoDup (map Container.id cs) ->
    Forall (fun c => c ∈ daemon_containers w /\ matches (labels s false) c = true) cs ->
    grows w w' /\
    NoDup (map Container.id cs') /\
    Forall (fun c => c ∈ daemon_containers w' /\ matches (labels s false) c = true) cs' /\
    (forall c, c ∈ cs -> c ∈ cs').
Proof.
  induction fuel as [|fuel IH]; intros cs w cs' w' s Hrun Hs Hv Hids Hnd Hall;
    simpl in Hrun.
  - destruct (Z.of_nat (length cs) <? desired_num)%Z; [discriminate|].
    injection Hrun as <- <-. split; [reflexivity|auto].
  - destruct (Z.of_nat (length cs) <? desired_num)%Z.
    + inv_bind Hrun.
      destruct (create_container_ok _ _ _ _ _ _ _ _ _ _ _ _ E Hs Hv)
        as (Hg & Hin & Hstopped & Hm & Hfresh).
      assert (service_objects w0 !! self = Some s) as Hs1 by (rewrite (proj1 Hg); exact Hs).
      pose proof (volumes_at_hand_grows _ _ _ Hg Hv) as Hv1.
      destruct (IH _ _ _ _ _ Hrun Hs1 Hv1) as (Hg' & Hnd' & Hall' & Hsub).
      * destruct Hg as [_ (added & _ & _ & Hk)]. auto.
      * rewrite map_app. apply NoDup_app.
        repeat split; [assumption| |repeat constructor; apply not_elem_of_nil].
        intros i Hi Hi'. apply list_elem_of_singleton in Hi'. subst i.
        apply Hfresh. apply list_elem_of_In, in_map_iff in Hi as (c' & <- & Hc').
        apply list_elem_of_In in Hc'. rewrite Forall_forall in Hall.
        apply elem_of_ids. now apply Hall.
      * apply Forall_app. split; [|apply Forall_singleton; auto].
        eapply Forall_impl; [eassumption|]. intros c' [Hc' Hm']. split; [|assumption].
        eapply grows_elem; eassumption.
      * split; [etransitivity; eassumption|]. split; [assumption|]. split; [assumption|].
        intros c' Hc'. apply Hsub. apply elem_of_app. now left.
    + injection Hrun as <- <-. split; [reflexivity|auto].
Qed.

(** What the loop of [remove_stopped] leaves of the containers. *)
Definition to_remove (cs : list Container.t) (d : Container.t) : bool :=
  existsb (fun c => negb (Container.is_running c) && has_id (Container.id c) d) cs.

Lemma remove_loop_ok (cs : list Container.t) :
  forall w w',
    for_each cs (fun c => if negb (Container.is_running c) then Container_remove c
                          else mret tt) w = (Ok tt, w') ->
    daemon_containers w'
    = List.filter (fun d => negb (to_remove cs d)) (daemon_containers w).
Proof.
  induction cs as [|c cs IH]; intros w w' Hrun; simpl in Hrun.
  - injection Hrun as <-. symmetry. now apply filter_all.
  - inv_bind Hrun. destruct a. rewrite (IH _ _ Hrun).
    destruct (Container.is_running c) eqn:Er; cbn in E; unfold Container_remove in E.
    + injection E as <-. apply filter_agree. intros d _.
      unfold to_remove. cbn. now rewrite Er.
    + apply client_remove_container_ok in E as [-> _].
      rewrite filter_filter_bool. apply filter_agree. intros d _.
      unfold to_remove. cbn. rewrite Er. cbn.
      unfold has_id. now rewrite negb_orb.
Qed.

(** [remove_stopped] leaves no stopped container of the service and
    keeps the running ones. *)
Lemma remove_stopped_ok self (w w' : world) (s : Service) :
  remove_stopped self w = (Ok tt, w') ->
  service_objects w !! self = Some s ->
  NoDup (ids w) ->
  List.filter (listed false (labels s false)) (daemon_containers w')
  = List.filter (listed false (labels s false)) (daemon_containers w) /\
  (forall d, d ∈ daemon_containers w' -> matches (labels s false) d = true ->
             Container.is_running d = true).
Proof.
  intros Hrun Hs Hids. unfold remove_stopped in Hrun.
  inv_bind Hrun. apply (containers_ok _ _ _ _ _ _ _ E) in Hs as (-> & Hdc & _).
  apply remove_loop_ok in Hrun. rewrite Hdc in Hrun. rewrite Hrun.
  set (L := labels s false) in *. split.
  - rewrite filter_filter_bool. apply filter_agree. intros d Hd.
    destruct (listed false L d) eqn:El; [|now rewrite andb_false_r].
    rewrite andb_true_r. apply negb_true_iff.
    destruct (to_remove _ d) eqn:Et; [exfalso|reflexivity].
    apply existsb_exists in Et as (c & Hc & Hcd).
    apply andb_true_iff in Hcd as [Hstopped Hid].
    apply filter_In in Hc as [Hc _].
    apply bool_decide_eq_true in Hid.
    assert (d = c) as ->
      by (eapply same_id_same_entry; eauto; now apply list_elem_of_In).
    unfold listed in El. cbn in El. apply andb_true_iff in El as [El _].
    rewrite El in Hstopped. discriminate.
  - intros d Hd Hm. apply list_elem_of_In, filter_In in Hd as [Hd Hkeep].
    destruct (Container.is_running d) eqn:Er; [reflexivity|exfalso].
    apply negb_true_iff in Hkeep.
    assert (to_remove (List.filter (listed true L) (daemon_containers w)) d = true) as Hrem.
    { apply existsb_exists. exists d. split.
      - apply filter_In. split; [assumption|]. unfold listed. cbn. exact Hm.
      - rewrite Er. cbn. unfold has_id. now apply bool_decide_eq_true. }
    congruence.
Qed.

End ScaleSteps.

Lemma filter_none {A} (f : A -> bool) (l : list A) :
  (forall x, x ∈ l -> f x = false) -> List.filter f l = [].
Proof.
  induction l as [|x l IH]; simpl; [reflexivity|]. intros Hall.
  rewrite (Hall x) by left. apply IH. intros y Hy. apply Hall. now right.
Qed.

(** With what [scale] knows, the running containers of the service are
    as many as the handles of its running list. *)
Lemma running_count (L : list string) (w : world) (running stopped : list Container.t) :
  scale_inv L w running stopped ->
  length (List.filter (listed false L) (daemon_containers w)) = length running.
Proof.
  intros [Hids Hrn _ Hr _ Hcomplete].
  rewrite <- (length_map Container.id), <- (length_map Container.id running).
  apply Permutation_length. apply NoDup_Permutation.
  - now apply NoDup_map_filter.
  - assumption.
  - intros i. split.
    + intros Hi. apply list_elem_of_In, in_map_iff in Hi as (d & <- & Hd).
      apply filter_In in Hd as [Hd Hl]. unfold listed in Hl. cbn in Hl.
      apply andb_true_iff in Hl as [Hrun Hm].
      apply Hcomplete; auto. now apply list_elem_of_In.
    + intros Hi. apply list_elem_of_In, in_map_iff in Hi as (c & <- & Hc).
      rewrite Forall_forall in Hr.
      destruct (Hr c (proj2 (list_elem_of_In _ _) Hc)) as (d & Hd & Hid & Hrun & Hm).
      rewrite <- Hid. apply list_elem_of_In, in_map, filter_In.
      split; [now apply list_elem_of_In|]. unfold listed. rewrite Hrun. exact Hm.
Qed.

Section Scale.

Context `{Constants} `{Runtime} `{SetOrder}.

(** When [scale(n)] returns, on a runtime whose containers have
    distinct ids and with a container at hand for every volume source of
    the service, exactly [n] containers of the service are running and no
    stopped container of the service is left. *)
Theorem scale_postcondition (depth : nat) (self : sref) (desired_num : Z)
    (w w' : world) (s : Service) :
  service_objects w !! self = Some s ->
  volumes_at_hand w s = true ->
  NoDup (ids w) ->
  scale depth self desired_num w = (Ok tt, w') ->
  Z.of_nat (length (List.filter (listed false (labels s false)) (daemon_containers w')))
  = desired_num /\
  List.filter (fun c => negb (Container.is_running c))
    (List.filter (listed true (labels s false)) (daemon_containers w')) = [].
Proof.
  intros Hs Hv Hids Hrun. unfold scale in Hrun.
  inv_bind Hrun. apply get_service_inv in E as [E ->].
  rewrite Hs in E. injection E as <-.
  inv_bind Hrun. apply lift_ok in E as [_ ->].
  destruct (negb a); [discriminate|]. clear a.
  inv_bind Hrun. rename a into cs0.
  destruct (containers_ok _ _ _ _ _ _ _ E Hs) as (Hcs0 & Hdc1 & Hsv1).
  inv_bind Hrun. rename a into cs.
  set (L := labels s false) in *.
  assert (service_objects w0 !! self = Some s) as Hs1 by congruence.
  assert (volumes_at_hand w0 s = true) as Hv1
    by (rewrite (volumes_at_hand_keeps w w0 s (conj Hdc1 Hsv1)); exact Hv).
  assert (NoDup (ids w0)) as Hids1 by (unfold ids; now rewrite Hdc1).
  destruct (create_enough_ok _ _ _ _ _ _ _ _ _ E0 Hs1 Hv1 Hids1)
    as (Hg & Hnd & Hall & Hsub).
  { subst cs0. apply NoDup_map_filter. exact Hids. }
  { subst cs0. apply Forall_forall. intros c Hc.
    apply list_elem_of_In, filter_In in Hc as [Hc Hl].
    split; [rewrite Hdc1; now apply list_elem_of_In|]. exact Hl. }
  fold L in Hall.
  inv_bind Hrun. apply lift_ok in E1 as [Hrunning ->]. rename a into running.
  inv_bind Hrun. apply lift_ok in E1 as [Hstopped ->]. rename a into stopped.
  apply sort_by_number_perm in Hrunning, Hstopped.
  assert (scale_inv L w1 running stopped) as Hinv.
  { rewrite Forall_forall in Hall. split.
    - destruct Hg as [_ (added & _ & _ & Hk)]. auto.
    - rewrite Hrunning. now apply NoDup_map_filter.
    - rewrite Hstopped. now apply NoDup_map_filter.
    - apply Forall_forall. intros c Hc. rewrite Hrunning in Hc.
      apply list_elem_of_In, filter_In in Hc as [Hc Hr].
      apply list_elem_of_In, Hall in Hc as [Hc Hm]. exists c. auto.
    - apply Forall_forall. intros c Hc. rewrite Hstopped in Hc.
      apply list_elem_of_In, filter_In in Hc as [Hc Hr].
      apply negb_true_iff in Hr.
      apply list_elem_of_In, Hall in Hc as [Hc Hm]. exists c. auto.
    - intros d Hd Hm Hr. rewrite Hrunning. apply elem_of_ids.
      apply list_elem_of_In, filter_In. split; [|assumption].
      apply list_elem_of_In, Hsub. subst cs0.
      apply list_elem_of_In, filter_In. split.
      + destruct Hg as [_ (added & Hadd & Hstop & _)]. rewrite Hadd in Hd.
        apply elem_of_app in Hd as [Hd|Hd]; [|rewrite <- Hdc1; now apply list_elem_of_In].
        rewrite Forall_forall in Hstop. rewrite (Hstop d Hd) in Hr. discriminate.
      + exact Hm. }
  inv_bind Hrun. destruct a as [running1 stopped1].
  destruct (stop_excess_ok L _ _ _ _ _ _ _ _ E1 Hinv) as (Hinv1 & Hle & Hsv3).
  inv_bind Hrun. destruct a as [running2 stopped2].
  destruct (start_missing_ok L _ _ _ _ _ _ _ E2 Hinv1 Hle) as (Hinv2 & Hlen & Hsv4).
  assert (service_objects w3 !! self = Some s) as Hs4
    by (rewrite Hsv4, Hsv3, (proj1 Hg); exact Hs1).
  destruct (remove_stopped_ok _ _ _ _ Hrun Hs4 (inv_ids _ _ _ _ Hinv2)) as [Hkept Hnone].
  fold L in Hkept, Hnone.
  split.
  - rewrite Hkept, (running_count L w3 running2 stopped2 Hinv2). exact Hlen.
  - apply filter_none. intros d Hd.
    apply list_elem_of_In, filter_In in Hd as [Hd Hl].
    unfold listed in Hl. cbn in Hl.
    now rewrite (Hnone d (proj2 (list_elem_of_In _ _) Hd) Hl).
Qed.

End Scale.

Lemma scale_postcondition_witness :
  let w' := (@scale Demo.constants Demo.runtime Demo.order 5 0 3 Demo.converged).2 in
  Z.of_nat (length (List.filter (listed false (labels Demo.web false))
                      (daemon_containers w'))) = 3%Z /\
  List.filter (fun c => negb (Container.is_running c))
    (List.filter (listed true (labels Demo.web false)) (daemon_containers w')) = [].
Proof.
  intros w'.
  apply (@scale_postcondition Demo.constants Demo.runtime Demo.order 5 0 3 Demo.converged
           w' Demo.web).
  - vm_compute. reflexivity.
  - reflexivity.
  - vm_compute. repeat constructor. apply not_elem_of_nil.
  - vm_compute. reflexivity.
Defined.

(** ** The counters of the loops are large enough *)

Section Fuel.

Context `{Constants} `{Runtime} `{SetOrder}.

(** A counter that covers the containers still to be created gives the
    result of any other such counter. *)
Lemma create_enough_fuel depth self desired_num :
  forall fuel1 fuel2 cs w,
    Z.to_nat (desired_num - Z.of_nat (length cs)) <= fuel1 ->
    Z.to_nat (desired_num - Z.of_nat (length cs)) <= fuel2 ->
    create_enough fuel1 depth self desired_num cs w
    = create_enough fuel2 depth self desired_num cs w.
Proof.
  induction fuel1 as [|fuel1 IH]; intros fuel2 cs w Hf1 Hf2.
  - destruct fuel2 as [|fuel2]; [reflexivity|]. simpl.
    destruct (Z.of_nat (length cs) <? desired_num)%Z eqn:E; [|reflexivity].
    apply Z.ltb_lt in E. lia.
  - destruct fuel2 as [|fuel2]; simpl;
      (destruct (Z.of_nat (length cs) <? desired_num)%Z eqn:E; [|reflexivity]);
      apply Z.ltb_lt in E; [lia|].
    rewrite !bind_unfold.
    destruct (create_container _ _ _ _ _ _ _ _ w) as [[e|c] w1]; [reflexivity|].
    apply IH; rewrite length_app; cbn; lia.
Qed.

(** A counter above the length of the running list gives the result of
    any other such counter. *)
Lemma stop_excess_fuel desired_num :
  forall fuel1 fuel2 running stopped w,
    length running < fuel1 -> length running < fuel2 ->
    stop_excess fuel1 desired_num running stopped w
    = stop_excess fuel2 desired_num running stopped w.
Proof.
  induction fuel1 as [|fuel1 IH]; intros fuel2 running stopped w Hf1 Hf2; [lia|].
  destruct fuel2 as [|fuel2]; [lia|]. simpl.
  destruct (desired_num <? Z.of_nat (length running))%Z; [|reflexivity].
  destruct (List.rev running) as [|c rest] eqn:Erev; [reflexivity|].
  rewrite !bind_unfold.
  destruct (Container_stop c (Some 1%Z) w) as [[e|[]] w1]; [reflexivity|].
  assert (length running = S (length rest)) as Hlen.
  { rewrite <- (length_rev running), Erev. reflexivity. }
  apply IH; rewrite length_rev; lia.
Qed.

End Fuel.

(** ** One dictionary of labels for two services *)

(** C10 fails on the code.  The services [data] and [app] were given one
    dictionary of labels, and [app] takes its volumes from [data], which
    has no container yet.  The create options of [app], asked for with the
    number 4, come back with labels that bind the service key to ["data"]
    and the number key to ["1"]: the host configuration is computed after
    the labels were written, it creates a container of [data], and this
    writes the labels of [data] into the same dictionary.  The container
    of [app] that [create_container] makes from these options bears the
    labels of [data]. *)
Theorem create_options_labels_shared :
  let create_container_of := fun source =>
    @create_container Demo.constants Demo.runtime Demo.order 3 source false false true
      None None ∅ in
  (exists opts hc w' target labels,
     @_get_container_create_options Demo.constants Demo.runtime Demo.order
       create_container_of 1 ∅ (SInt 4) false None Demo.w_shared = (Ok (opts, hc), w') /\
     opts !! "labels" = Some (VRef target) /\
     dict_objects w' !! target = Some labels /\
     labels !! LABEL_SERVICE = Some "data" /\
     labels !! LABEL_CONTAINER_NUMBER = Some "1") /\
  (exists c w',
     @create_container Demo.constants Demo.runtime Demo.order 4 1 false false true None
       (Some (SInt 4)) ∅ Demo.w_shared = (Ok c, w') /\
     Container.name c = "myapp_app_4" /\
     Container.labels c !! LABEL_SERVICE = Some "data" /\
     Container.labels c !! LABEL_CONTAINER_NUMBER = Some "1") /\
  service_objects Demo.w_shared !! 1 = Some Demo.app /\
  name Demo.app = "app".
Proof.
  intros create_container_of. split; [|split; [|split; reflexivity]].
  - pose (r := @_get_container_create_options Demo.constants Demo.runtime Demo.order
                 create_container_of 1 ∅ (SInt 4) false None Demo.w_shared).
    exists (match r.1 with inr (opts, _) => opts | inl _ => ∅ end),
           (match r.1 with
            | inr (_, hc) => hc
            | inl _ => mkHostConfig [] ∅ VNone [] VNone None VNone VNone VNone None VNone
                         VNone VNone ∅ VNone VNone VNone
            end),
           r.2, 0, (default ∅ (dict_objects r.2 !! 0)).
    split; [|split; [|split; [|split]]]; vm_compute; reflexivity.
  - pose (r := @create_container Demo.constants Demo.runtime Demo.order 4 1 false false
                 true None (Some (SInt 4)) ∅ Demo.w_shared).
    exists (match r.1 with inr c => c | inl _ => Demo.stale end), r.2.
    split; [|split; [|split]]; vm_compute; reflexivity.
Qed.

(** C2 fails on the code, for the same reason.  [app] can be scaled and
    [scale(1)] returns, but it leaves no running container that bears the
    labels of [app]: the one container that it created and started bears
    the labels of [data]. *)
Theorem scale_shared_labels :
  exists w',
    can_be_scaled Demo.app = Ok true /\
    service_objects Demo.w_shared !! 1 = Some Demo.app /\
    @scale Demo.constants Demo.runtime Demo.order 4 1 1 Demo.w_shared = (Ok tt, w') /\
    List.filter (listed false (labels Demo.app false)) (daemon_containers w') = [] /\
    exists c,
      c ∈ daemon_containers w' /\ Container.name c = "myapp_app_1" /\
      Container.is_running c = true /\
      Container.labels c !! LABEL_SERVICE = Some "data".
Proof.
  pose (r := @scale Demo.constants Demo.runtime Demo.order 4 1 1 Demo.w_shared).
  exists r.2. split; [reflexivity|]. split; [reflexivity|].
  split; [vm_compute; reflexivity|]. split; [vm_compute; reflexivity|].
  exists (List.hd Demo.stale (daemon_containers r.2)).
  split; [|split; [|split]]; [|vm_compute; reflexivity..].
  apply list_elem_of_In. vm_compute. left. reflexivity.
Qed.
